(** * Readout-error confusion matrices of the Aer noise model

    A shallow embedding of the [ReadoutError] class
    (qiskit/providers/aer/noise/errors/readout_error.py, and the older
    variant qiskit_aer/noise/readout_error.py) together with the
    properties its specification states.

    Numbers are IEEE 754 binary64 values, as numpy's float64: the
    primitive floats of the kernel.  A matrix is a list of rows.  The
    class attributes ATOL and RTOL are the only shared mutable state;
    methods are computations over that state which may raise.

    The inner products behind [np.dot] and [numpy.linalg.norm] are made by
    the BLAS numpy is linked with, which chooses the order of the additions
    and whether products are fused into them.  They are a parameter here:
    every property of [compose], [power] and [ideal] is proved for every
    such choice. *)

From Stdlib Require Import String Floats List Bool Arith ZArith Lia Permutation.
Import ListNotations.

Set Warnings "-inexact-float".

Local Open Scope float_scope.

Definition vector := list float.
Definition matrix := list vector.

(** ** Exceptions *)

(** Every [raise NoiseError(...)] site of the class, named after the kind
    of failure it reports. *)
Inductive NoiseErrorKind : Type :=
| EmptyInput            (* "Input probabilities: empty." *)
| InvalidDimension      (* "length {} != 2**{}", "Invalid probabilities.",
                           "vectors are different lengths." *)
| NotNormalized         (* "sum({})= {} is not 1." *)
| NegativeProbability   (* "contains a negative probability." *)
| DimensionMismatch     (* "other must have same number of qubits." *)
| InvalidExponent       (* "Can only power with positive integer powers." *)
| InvalidTolerance.     (* "Invalid atol/rtol: ..." *)

(** Exceptions a call can end with: the class's own [NoiseError], or one
    raised by the Python runtime or numpy underneath it. *)
Inductive exn : Type :=
| NoiseError (k : NoiseErrorKind)
| OverflowError         (* int() of an infinite float *)
| ValueError.           (* numpy: shapes not aligned *)

Inductive result (A : Type) : Type :=
| Ok (a : A)
| Raise (e : exn).
Arguments Ok {A} a.
Arguments Raise {A} e.

Definition rbind {A B : Type} (r : result A) (k : A -> result B) : result B :=
  match r with
  | Ok a => k a
  | Raise e => Raise e
  end.

(** ** Class attributes and the method monad *)

(** [ReadoutError.ATOL] and [ReadoutError.RTOL]. *)
Record ClassAttrs : Type := mkAttrs { ATOL : float; RTOL : float }.

(** A method body: reads and writes the class attributes, returns a value
    or raises.  Attribute writes made before a raise persist. *)
Definition M (A : Type) : Type := ClassAttrs -> result A * ClassAttrs.

Definition ret {A : Type} (a : A) : M A := fun st => (Ok a, st).

Definition raise {A : Type} (e : exn) : M A := fun st => (Raise e, st).

Definition bind {A B : Type} (m : M A) (k : A -> M B) : M B :=
  fun st =>
    match m st with
    | (Ok a, st') => k a st'
    | (Raise e, st') => (Raise e, st')
    end.

Definition lift {A : Type} (r : result A) : M A := fun st => (r, st).

Definition get_attrs : M ClassAttrs := fun st => (Ok st, st).

Definition put_attrs (st' : ClassAttrs) : M unit := fun _ => (Ok tt, st').

Declare Scope method_scope.
Delimit Scope method_scope with method.
Notation "x <- m ;; k" := (bind m (fun x => k))
  (at level 61, m at next level, right associativity) : method_scope.
Notation "m ;;; k" := (bind m (fun _ => k))
  (at level 61, right associativity) : method_scope.

(** The value a run ends with, and the attributes it leaves. *)
Definition outcome {A : Type} (m : M A) (st : ClassAttrs) : result A := fst (m st).
Definition attrs_after {A : Type} (m : M A) (st : ClassAttrs) : ClassAttrs := snd (m st).

Local Close Scope float_scope.

(** ** Inner products as the numeric library computes them *)

(** Fused multiply-add on the specification side: [x * y + z] rounded
    once.  With a factor that is zero, infinite or NaN the product is exact
    and the two-step result is the fused one. *)
Definition SFfma (x y z : SpecFloat.spec_float) : SpecFloat.spec_float :=
  match x, y with
  | SpecFloat.S754_finite sx mx ex, SpecFloat.S754_finite sy my ey =>
      match z with
      | SpecFloat.S754_nan => SpecFloat.S754_nan
      | SpecFloat.S754_infinity _ => z
      | SpecFloat.S754_zero _ => SF64mul x y
      | SpecFloat.S754_finite sz mz ez =>
          let ep := (ex + ey)%Z in
          let e := Z.min ep ez in
          SpecFloat.binary_normalize prec emax
            (SpecFloat.cond_Zopp (xorb sx sy)
               (Zpos (fst (SpecFloat.shl_align (mx * my)%positive ep e)))
             + SpecFloat.cond_Zopp sz (Zpos (fst (SpecFloat.shl_align mz ez e))))%Z
            e false
      end
  | _, _ => SF64add (SF64mul x y) z
  end.

Definition fma (x y z : float) : float :=
  SF2Prim (SFfma (Prim2SF x) (Prim2SF y) (Prim2SF z)).

(** One way to add up the products [u[k] * v[k]]: which products are
    rounded on their own, which are fused into an addition, and in which
    order and grouping the additions are made. *)
Inductive plan : Type :=
| Term (k : nat)
| Sum (l r : plan)
| Fused (k : nat) (acc : plan).

Fixpoint leaves (pl : plan) : list nat :=
  match pl with
  | Term k => [k]
  | Sum l r => leaves l ++ leaves r
  | Fused k acc => k :: leaves acc
  end.

Fixpoint eval (u v : vector) (pl : plan) : float :=
  match pl with
  | Term k => PrimFloat.mul (nth k u 0%float) (nth k v 0%float)
  | Sum l r => PrimFloat.add (eval u v l) (eval u v r)
  | Fused k acc => fma (nth k u 0%float) (nth k v 0%float) (eval u v acc)
  end.

(** The plan uses each of the indices [0 .. n-1] once. *)
Definition covers (n : nat) (pl : plan) : Prop :=
  Permutation (leaves pl) (seq 0 n).

(** [s] is an inner product of [u] and [v]: 0 on empty vectors, and
    otherwise the value of some plan over all indices; accumulators that
    start at +0 can turn a result of -0 into +0. *)
Definition accumulates (u v : vector) (s : float) : Prop :=
  match length u with
  | O => s = 0%float
  | S _ => exists pl, covers (length u) pl /\
                      (s = eval u v pl \/ s = PrimFloat.add 0 (eval u v pl))
  end.

(** The two BLAS routines numpy calls: the vector inner product behind
    [norm], and the entry [(i, j)] of a matrix product behind [np.dot].
    Their rounding is the library's choice; only the products that are
    summed are fixed. *)
Class Blas : Type := {
  ddot : vector -> vector -> float;
  gemm : nat -> nat -> vector -> vector -> float;
  ddot_accumulates : forall u v,
      length u = length v -> accumulates u v (ddot u v);
  gemm_accumulates : forall i j u v,
      length u = length v -> accumulates u v (gemm i j u v)
}.

(** Accumulation in index order with every product fused, from +0. *)
Fixpoint fused_chain (n : nat) : plan :=
  match n with
  | O => Term 0
  | S m => Fused (S m) (fused_chain m)
  end.

Definition fused_dot (u v : vector) : float :=
  match length u with
  | O => 0%float
  | S n => PrimFloat.add 0 (eval u v (fused_chain n))
  end.

Lemma leaves_fused_chain n : leaves (fused_chain n) = rev (seq 0 (S n)).
Proof.
  induction n as [|n IH]; [reflexivity|].
  cbn [fused_chain leaves]. rewrite IH.
  rewrite (seq_S (S n) 0), rev_app_distr. reflexivity.
Qed.

Lemma fused_dot_accumulates u v : accumulates u v (fused_dot u v).
Proof.
  unfold accumulates, fused_dot. destruct (length u) as [|n]; [reflexivity|].
  exists (fused_chain n). split; [|right; reflexivity].
  unfold covers. rewrite leaves_fused_chain. symmetry. apply Permutation_rev.
Qed.

Definition fused_in_order : Blas :=
  {| ddot := fused_dot;
     gemm := fun _ _ => fused_dot;
     ddot_accumulates := fun u v _ => fused_dot_accumulates u v;
     gemm_accumulates := fun _ _ u v _ => fused_dot_accumulates u v |}.

(** *** Products that do not count *)

Definition nonneg_finite (x : float) : bool :=
  match Prim2SF x with
  | SpecFloat.S754_zero false => true
  | SpecFloat.S754_finite false _ _ => true
  | _ => false
  end.

(** One factor is +0 and the other is finite and not negative: the
    product is exactly +0. *)
Definition silent (x y : float) : Prop :=
  (x = 0%float /\ nonneg_finite y = true) \/
  (y = 0%float /\ nonneg_finite x = true).

Lemma silent_mul x y : silent x y -> PrimFloat.mul x y = 0%float.
Proof.
  intros [[-> H]|[-> H]]; apply Prim2SF_inj; rewrite mul_spec;
    unfold nonneg_finite in H;
    change (Prim2SF 0) with (SpecFloat.S754_zero false).
  - destruct (Prim2SF y) as [[]|[]| |[] m e]; try discriminate; reflexivity.
  - destruct (Prim2SF x) as [[]|[]| |[] m e]; try discriminate; reflexivity.
Qed.

Lemma silent_fma x y z : silent x y -> fma x y z = PrimFloat.add 0 z.
Proof.
  intros H. rewrite <- (SF2Prim_Prim2SF (PrimFloat.add 0 z)), add_spec.
  unfold fma. f_equal.
  change (Prim2SF 0) with (SpecFloat.S754_zero false).
  destruct H as [[-> H]|[-> H]]; unfold nonneg_finite in H;
    change (Prim2SF 0) with (SpecFloat.S754_zero false).
  - destruct (Prim2SF y) as [[]|[]| |[] m e]; try discriminate; reflexivity.
  - destruct (Prim2SF x) as [[]|[]| |[] m e]; try discriminate; reflexivity.
Qed.

(** [x + 0 = x] for every [x] but -0. *)
Lemma add_zero_r x : PrimFloat.add 0 x = x -> PrimFloat.add x 0 = x.
Proof.
  intros H. apply Prim2SF_inj. rewrite add_spec.
  apply (f_equal Prim2SF) in H. rewrite add_spec in H.
  change (Prim2SF 0) with (SpecFloat.S754_zero false) in *.
  destruct (Prim2SF x) as [[]|[]| |[] m e]; try reflexivity.
  discriminate H.
Qed.

Lemma fma_zero_acc x y :
  PrimFloat.add 0 (PrimFloat.mul x y) = PrimFloat.mul x y ->
  fma x y 0 = PrimFloat.mul x y.
Proof.
  intros H. apply add_zero_r in H.
  rewrite <- (SF2Prim_Prim2SF (PrimFloat.mul x y)).
  unfold fma. f_equal.
  apply (f_equal Prim2SF) in H. rewrite add_spec, mul_spec in H.
  rewrite mul_spec.
  change (Prim2SF 0) with (SpecFloat.S754_zero false) in *.
  destruct (Prim2SF x) as [sx|sx| |sx mx ex], (Prim2SF y) as [sy|sy| |sy my ey];
    try exact H; reflexivity.
Qed.

Lemma NoDup_app_parts {A : Type} (l1 l2 : list A) :
  NoDup (l1 ++ l2) ->
  NoDup l1 /\ NoDup l2 /\ (forall x, In x l1 -> In x l2 -> False).
Proof.
  induction l1 as [|a l1 IH]; simpl; intros H.
  - split; [constructor|]. split; [exact H|]. intros x [].
  - inversion H as [|a' l' Hnotin Hnd]; subst.
    destruct (IH Hnd) as (H1 & H2 & H3).
    split; [|split; [exact H2|]].
    + constructor; [|exact H1]. intros Hin. apply Hnotin. apply in_or_app. auto.
    + intros x [<-|Hx] Hx2.
      * apply Hnotin. apply in_or_app. auto.
      * apply (H3 x Hx Hx2).
Qed.

Section Sparse.
Variables u v : vector.

Lemma eval_silent pl :
  (forall m, In m (leaves pl) -> silent (nth m u 0%float) (nth m v 0%float)) ->
  eval u v pl = 0%float.
Proof.
  induction pl as [k|l IHl r IHr|k acc IH]; cbn [leaves eval]; intros H.
  - apply silent_mul. apply H. left. reflexivity.
  - rewrite IHl, IHr; [reflexivity| |];
      intros m Hm; apply H; apply in_or_app; auto.
  - rewrite silent_fma by (apply H; left; reflexivity).
    rewrite IH; [reflexivity|]. intros m Hm. apply H. right. exact Hm.
Qed.

Variable k : nat.
Hypothesis p_not_negative_zero :
  PrimFloat.add 0 (PrimFloat.mul (nth k u 0%float) (nth k v 0%float))
  = PrimFloat.mul (nth k u 0%float) (nth k v 0%float).

Lemma eval_sparse pl :
  NoDup (leaves pl) -> In k (leaves pl) ->
  (forall m, In m (leaves pl) -> m <> k ->
             silent (nth m u 0%float) (nth m v 0%float)) ->
  eval u v pl = PrimFloat.mul (nth k u 0%float) (nth k v 0%float).
Proof.
  induction pl as [m|l IHl r IHr|m acc IH]; cbn [leaves eval];
    intros Hnd Hin Hsil.
  - destruct Hin as [->|[]]. reflexivity.
  - destruct (NoDup_app_parts _ _ Hnd) as (Hl & Hr & Hdis).
    apply in_app_or in Hin. destruct Hin as [Hin|Hin].
    + rewrite IHl, (eval_silent r).
      * apply add_zero_r. exact p_not_negative_zero.
      * intros m Hm. apply Hsil; [apply in_or_app; auto|].
        intros ->. apply (Hdis k Hin Hm).
      * exact Hl.
      * exact Hin.
      * intros m Hm. apply Hsil. apply in_or_app; auto.
    + rewrite IHr, (eval_silent l).
      * exact p_not_negative_zero.
      * intros m Hm. apply Hsil; [apply in_or_app; auto|].
        intros ->. apply (Hdis k Hm Hin).
      * exact Hr.
      * exact Hin.
      * intros m Hm. apply Hsil. apply in_or_app; auto.
  - inversion Hnd as [|m' l' Hnotin Hacc]; subst.
    destruct (Nat.eq_dec m k) as [->|Hne].
    + rewrite (eval_silent acc).
      * apply fma_zero_acc. exact p_not_negative_zero.
      * intros m Hm. apply Hsil; [right; exact Hm|].
        intros ->. contradiction.
    + rewrite silent_fma by (apply Hsil; [left; reflexivity|exact Hne]).
      rewrite IH.
      * exact p_not_negative_zero.
      * exact Hacc.
      * destruct Hin as [Heq|Hin]; [contradiction|exact Hin].
      * intros m' Hm'. apply Hsil. right. exact Hm'.
Qed.
End Sparse.

Lemma covers_leaves n pl m : covers n pl -> (In m (leaves pl) <-> m < n).
Proof.
  intros H. split; intros Hm.
  - apply (Permutation_in _ H) in Hm. apply in_seq in Hm. lia.
  - apply (Permutation_in _ (Permutation_sym H)). apply in_seq. lia.
Qed.

Lemma covers_NoDup n pl : covers n pl -> NoDup (leaves pl).
Proof.
  intros H. apply (Permutation_NoDup (Permutation_sym H)). apply seq_NoDup.
Qed.

Lemma accumulates_silent u v s :
  accumulates u v s ->
  (forall m, m < length u -> silent (nth m u 0%float) (nth m v 0%float)) ->
  s = 0%float.
Proof.
  unfold accumulates. destruct (length u) as [|n] eqn:E; [auto|].
  intros (pl & Hc & Hs) Hsil.
  assert (He : eval u v pl = 0%float).
  { apply eval_silent. intros m Hm. apply Hsil.
    apply (covers_leaves _ _ _ Hc). exact Hm. }
  rewrite He in Hs. destruct Hs as [->| ->]; reflexivity.
Qed.

Lemma accumulates_sparse u v s k :
  accumulates u v s -> k < length u ->
  (forall m, m < length u -> m <> k ->
             silent (nth m u 0%float) (nth m v 0%float)) ->
  PrimFloat.add 0 (PrimFloat.mul (nth k u 0%float) (nth k v 0%float))
  = PrimFloat.mul (nth k u 0%float) (nth k v 0%float) ->
  s = PrimFloat.mul (nth k u 0%float) (nth k v 0%float).
Proof.
  unfold accumulates. destruct (length u) as [|n] eqn:E; [lia|].
  intros (pl & Hc & Hs) Hk Hsil Hp.
  assert (He : eval u v pl = PrimFloat.mul (nth k u 0%float) (nth k v 0%float)).
  { apply eval_sparse.
    - exact Hp.
    - apply (covers_NoDup _ _ Hc).
    - apply (covers_leaves _ _ _ Hc). exact Hk.
    - intros m Hm Hne. apply Hsil; [|exact Hne].
      apply (covers_leaves _ _ _ Hc). exact Hm. }
  rewrite He in Hs. destruct Hs as [->| ->]; [reflexivity|exact Hp].
Qed.

Fixpoint splits (l : list nat) : list (list nat * list nat) :=
  match l with
  | [] => [([], [])]
  | x :: l' =>
      flat_map (fun ab => [(x :: fst ab, snd ab); (fst ab, x :: snd ab)])
               (splits l')
  end.

Definition combine_parts (u v : vector) (a : list nat) (xs ys : list float)
  : list float :=
  flat_map (fun x => map (fun y => PrimFloat.add x y) ys) xs ++
  match a with
  | [k] => map (fun y => fma (nth k u 0%float) (nth k v 0%float) y) ys
  | _ => []
  end.

Fixpoint reach (fuel : nat) (u v : vector) (l : list nat) : list float :=
  match fuel with
  | O => []
  | S f =>
      match l with
      | [k] => [PrimFloat.mul (nth k u 0%float) (nth k v 0%float)]
      | _ => []
      end ++
      flat_map (fun ab =>
                  match fst ab, snd ab with
                  | [], _ => []
                  | _, [] => []
                  | a, b => combine_parts u v a (reach f u v a) (reach f u v b)
                  end) (splits l)
  end.

Lemma splits_complete l : forall A B,
  Permutation (A ++ B) l ->
  exists a b, In (a, b) (splits l) /\ Permutation A a /\ Permutation B b.
Proof.
  induction l as [|x l IH]; intros A B H.
  - apply Permutation_sym, Permutation_nil in H. apply app_eq_nil in H as [-> ->].
    exists [], []. simpl. auto.
  - assert (Hx : In x (A ++ B)).
    { apply (Permutation_in _ (Permutation_sym H)). left. reflexivity. }
    apply in_app_or in Hx. destruct Hx as [Hx|Hx].
    + apply in_split in Hx as (A1 & A2 & ->).
      assert (H' : Permutation ((A1 ++ A2) ++ B) l).
      { apply Permutation_sym in H. rewrite <- !app_assoc in *.
        cbn [app] in H. apply Permutation_cons_app_inv in H.
        apply Permutation_sym. exact H. }
      destruct (IH _ _ H') as (a & b & Hin & Ha & Hb).
      exists (x :: a), b. split; [|split; [|exact Hb]].
      * cbn [splits]. apply in_flat_map. exists (a, b). split; [exact Hin|].
        left. reflexivity.
      * apply Permutation_sym, Permutation_cons_app.
        apply Permutation_sym. exact Ha.
    + apply in_split in Hx as (B1 & B2 & ->).
      assert (H' : Permutation (A ++ (B1 ++ B2)) l).
      { apply Permutation_sym in H. rewrite app_assoc in H.
        apply Permutation_cons_app_inv in H. rewrite <- app_assoc in H.
        apply Permutation_sym. exact H. }
      destruct (IH _ _ H') as (a & b & Hin & Ha & Hb).
      exists a, (x :: b). split; [|split; [exact Ha|]].
      * cbn [splits]. apply in_flat_map. exists (a, b). split; [exact Hin|].
        right. left. reflexivity.
      * apply Permutation_sym, Permutation_cons_app.
        apply Permutation_sym. exact Hb.
Qed.

Lemma leaves_nonempty pl : leaves pl <> [].
Proof.
  induction pl as [k|l IHl r IHr|k acc IH]; cbn [leaves]; try discriminate.
  intros H. apply app_eq_nil in H as [H _]. contradiction.
Qed.

Lemma reach_complete u v pl : forall l fuel,
  Permutation (leaves pl) l -> length l <= fuel ->
  In (eval u v pl) (reach fuel u v l).
Proof.
  induction pl as [k|pl1 IH1 pl2 IH2|k acc IH]; intros l fuel Hp Hlen.
  - cbn [leaves] in Hp. apply Permutation_length_1_inv in Hp. subst l.
    destruct fuel as [|f]; [simpl in Hlen; lia|].
    cbn [reach eval]. left. reflexivity.
  - cbn [leaves] in Hp.
    destruct (splits_complete l _ _ Hp) as (a & b & Hin & Ha & Hb).
    pose proof (Permutation_length Hp) as HL. rewrite length_app in HL.
    pose proof (Permutation_length Ha) as HLa.
    pose proof (Permutation_length Hb) as HLb.
    assert (Na : a <> []).
    { intros ->. apply Permutation_sym, Permutation_nil in Ha.
      apply (leaves_nonempty _ Ha). }
    assert (Nb : b <> []).
    { intros ->. apply Permutation_sym, Permutation_nil in Hb.
      apply (leaves_nonempty _ Hb). }
    destruct a as [|xa a']; [contradiction|].
    destruct b as [|xb b']; [contradiction|].
    destruct fuel as [|f]; [simpl in *; lia|].
    cbn [reach]. apply in_or_app. right.
    apply in_flat_map. exists (xa :: a', xb :: b'). split; [exact Hin|].
    cbn [fst snd eval]. unfold combine_parts. apply in_or_app. left.
    apply in_flat_map. exists (eval u v pl1). split.
    + apply IH1; [exact Ha|]. simpl in *. lia.
    + apply in_map. apply IH2; [exact Hb|]. simpl in *. lia.
  - cbn [leaves] in Hp.
    destruct (splits_complete l [k] (leaves acc) Hp) as (a & b & Hin & Ha & Hb).
    apply Permutation_length_1_inv in Ha. subst a.
    pose proof (Permutation_length Hp) as HL. cbn [length] in HL.
    pose proof (Permutation_length Hb) as HLb.
    assert (Nb : b <> []).
    { intros ->. apply Permutation_sym, Permutation_nil in Hb.
      apply (leaves_nonempty _ Hb). }
    destruct b as [|xb b']; [contradiction|].
    destruct fuel as [|f]; [simpl in *; lia|].
    cbn [reach]. apply in_or_app. right.
    apply in_flat_map. exists ([k], xb :: b'). split; [exact Hin|].
    cbn [fst snd eval]. unfold combine_parts. apply in_or_app. right.
    apply in_map. apply IH; [exact Hb|]. simpl in *. lia.
Qed.

Definition candidates (n : nat) (u v : vector) : list float :=
  match n with
  | O => [0%float]
  | S _ => let r := reach n u v (seq 0 n) in
           r ++ map (fun x => PrimFloat.add 0 x) r
  end.

Lemma accumulates_candidates u v s :
  accumulates u v s -> In s (candidates (length u) u v).
Proof.
  unfold accumulates, candidates. destruct (length u) as [|n]; [intros ->; left; reflexivity|].
  intros (pl & Hc & Hs).
  pose proof (reach_complete u v pl (seq 0 (S n)) (S n) Hc
                ltac:(rewrite length_seq; lia)) as Hr.
  apply in_or_app. destruct Hs as [->| ->]; [left; exact Hr|right].
  apply in_map. exact Hr.
Qed.

Local Open Scope float_scope.

(** ** Python and numpy primitives *)

Module Py.

(** Builtin [sum] over an array: left to right from 0. *)
Definition sum (arr : vector) : float := fold_left PrimFloat.add arr 0.

(** [int(np.log2(n))] for a length [n].  [np.log2(0)] is [-inf] and
    [int] of it raises; for [n > 0] the truncated logarithm.  (numpy's
    log2 is exact at powers of two; elsewhere the truncation may differ
    from the floor only for lengths beyond 2^48, and never yields a
    [q] with [2**q = n].) *)
Definition int_log2 (n : nat) : result nat :=
  if Nat.eqb n 0 then Raise OverflowError else Ok (Nat.log2 n).

(** [np.eye(n)]. *)
Definition eye (n : nat) : matrix :=
  map (fun i => map (fun j => if Nat.eqb i j then 1 else 0) (seq 0 n)) (seq 0 n).

(** Elementwise [a - b] of two arrays of one shape. *)
Fixpoint vsub (a b : vector) : vector :=
  match a, b with
  | x :: a', y :: b' => (x - y) :: vsub a' b'
  | _, _ => []
  end.

Fixpoint msub (a b : matrix) : matrix :=
  match a, b with
  | x :: a', y :: b' => vsub x y :: msub a' b'
  | _, _ => []
  end.

Definition column (j : nat) (b : matrix) : vector :=
  map (fun row => nth j row 0) b.

Definition ncols (a : matrix) : nat := length (hd [] a).

(** [np.dot(a, b)] on two 2-D arrays: shapes (n,k) and (k,m) give (n,m);
    the inner dimensions must agree.  Entry [(i, j)] is the inner product
    of row [i] of [a] and column [j] of [b], as the BLAS behind numpy
    accumulates it. *)
Definition dot {K : Blas} (a b : matrix) : result matrix :=
  if Nat.eqb (ncols a) (length b)
  then Ok (map (fun ir =>
                  map (fun j => gemm (fst ir) j (snd ir) (column j b))
                      (seq 0 (ncols b)))
               (combine (seq 0 (length a)) a))
  else Raise ValueError.

(** [np.kron(a, b)]: block [(i, j)] of the result is [a[i][j] * b]. *)
Definition kron_row (ra rb : vector) : vector :=
  flat_map (fun x => map (fun y => x * y) rb) ra.

Definition kron (a b : matrix) : matrix :=
  flat_map (fun ra => map (fun rb => kron_row ra rb) b) a.

(** [numpy.linalg.norm] with default arguments: the Frobenius norm,
    the square root of the inner product of the flattened array with
    itself. *)
Definition norm {K : Blas} (a : matrix) : float :=
  let flat := concat a in PrimFloat.sqrt (ddot flat flat).

(** Round to the nearest integer, ties to even ([np.rint]). *)
Definition two52 : float := 4503599627370496.

Definition rint (x : float) : float :=
  if PrimFloat.ltb (PrimFloat.abs x) two52
  then if PrimFloat.ltb x 0 then (x - two52) + two52 else (x + two52) - two52
  else x.

(** [round(x, 12)] of a float64 scalar: scale by 10^12, round to an
    integer, scale back. *)
Definition round12 (x : float) : float :=
  rint (x * 1000000000000) / 1000000000000.

End Py.

(** ** The class [ReadoutError] *)

(** Modelled from the spec: [ATOL_DEFAULT] is imported from
    qiskit.quantum_info.operators.predicates, which is not among the
    sources; the constructor's docstring gives the value
    ("[Default: 1e-8]"). *)
Definition ATOL_DEFAULT : float := 1e-8.

Definition MAX_TOL : float := 1e-4.

(** An instance: [self._probabilities] and [self._number_of_qubits]. *)
Record ReadoutError : Type := mkReadoutError {
  _probabilities : matrix;
  _number_of_qubits : nat
}.

(** Modelled from the spec: [qubits_from_mat] lives in errorutils.py,
    which is not among the sources; the spec records
    [qubit_count = log2(N)] with [N] the number of columns. *)
Definition qubits_from_mat (mat : matrix) : nat := Nat.log2 (Py.ncols mat).

(** The body of the [for vec in probabilities] loop of
    [_check_probabilities], one row per step. *)
Fixpoint check_rows (num_outcomes : nat) (threshold : float) (rows : matrix)
  : result unit :=
  match rows with
  | [] => Ok tt
  | arr :: rest =>
      if negb (Nat.eqb (length arr) num_outcomes)
      then Raise (NoiseError InvalidDimension)
      else if PrimFloat.ltb threshold (PrimFloat.abs (Py.sum arr - 1))
      then Raise (NoiseError NotNormalized)
      else if existsb (fun x => PrimFloat.ltb x 0) arr
      then Raise (NoiseError NegativeProbability)
      else check_rows num_outcomes threshold rest
  end.

(** [ReadoutError._check_probabilities] (a static method). *)
Definition _check_probabilities (probabilities : matrix) (threshold : float)
  : result unit :=
  match probabilities with
  | [] => Raise (NoiseError EmptyInput)
  | row0 :: _ =>
      let num_outcomes := length row0 in
      rbind (Py.int_log2 num_outcomes) (fun num_qubits =>
      if negb (Nat.eqb (2 ^ num_qubits) num_outcomes)
      then Raise (NoiseError InvalidDimension)
      else if negb (Nat.eqb (length probabilities) num_outcomes)
      then Raise (NoiseError InvalidDimension)
      else check_rows num_outcomes threshold probabilities)
  end.

Local Open Scope method_scope.

(** [ReadoutError.__init__(probabilities, atol=ATOL_DEFAULT)].  The
    default of [atol] is the module constant, bound when the function is
    defined; the class attribute [ATOL] is not consulted. *)
Definition __init__ (probabilities : matrix) (atol : option float)
  : M ReadoutError :=
  let atol := match atol with Some a => a | None => ATOL_DEFAULT end in
  lift (_check_probabilities probabilities atol) ;;;
  (* np.array(probabilities, dtype=float): the same rows of float64 *)
  ret {| _probabilities := probabilities;
         _number_of_qubits := qubits_from_mat probabilities |}.

(** [copy.deepcopy(self)]. *)
Definition copy (self : ReadoutError) : M ReadoutError := ret self.

Definition number_of_qubits (self : ReadoutError) : nat := _number_of_qubits self.

Definition probabilities (self : ReadoutError) : matrix := _probabilities self.

(** The [atol] property and its setter. *)
Definition atol : M float := st <- get_attrs ;; ret (ATOL st).

Definition atol_setter (atol : float) : M unit :=
  let max_tol := MAX_TOL in
  if PrimFloat.ltb atol 0 then raise (NoiseError InvalidTolerance)
  else if PrimFloat.ltb max_tol atol then raise (NoiseError InvalidTolerance)
  else st <- get_attrs ;; put_attrs {| ATOL := atol; RTOL := RTOL st |}.

(** The [rtol] property and its setter. *)
Definition rtol : M float := st <- get_attrs ;; ret (RTOL st).

Definition rtol_setter (rtol : float) : M unit :=
  let max_tol := MAX_TOL in
  if PrimFloat.ltb rtol 0 then raise (NoiseError InvalidTolerance)
  else if PrimFloat.ltb max_tol rtol then raise (NoiseError InvalidTolerance)
  else st <- get_attrs ;; put_attrs {| ATOL := ATOL st; RTOL := rtol |}.

(** [ReadoutError.ideal].  The subtraction is on two arrays of one shape
    for every instance the constructor built. *)
Definition ideal {K : Blas} (self : ReadoutError) : M bool :=
  let iden := Py.eye (2 ^ number_of_qubits self) in
  let delta := Py.round12 (Py.norm (Py.msub (probabilities self) iden)) in
  if PrimFloat.eqb delta 0 then ret true else ret false.

(** The dictionary [as_dict] returns, by key. *)
Record ErrorDict : Type := mkErrorDict {
  dict_type : string;
  dict_operations : list string;
  dict_probabilities : matrix
}.

(** [ReadoutError.as_dict]; [tolist] keeps rows and entries in place. *)
Definition as_dict (self : ReadoutError) : M ErrorDict :=
  let error := {| dict_type := "roerror";
                  dict_operations := ["measure"%string];
                  dict_probabilities := _probabilities self |} in
  ret error.

(** The [other] argument of [compose], [tensor] and [expand]: an instance,
    or raw data to be passed through the constructor first. *)
Inductive operand : Type :=
| Instance (e : ReadoutError)
| ArrayLike (p : matrix).

Definition coerce (other : operand) : M ReadoutError :=
  match other with
  | Instance e => ret e
  | ArrayLike p => __init__ p None
  end.

(** [ReadoutError.compose(other, front=False)]. *)
Definition compose {K : Blas} (self : ReadoutError) (other : operand) (front : bool)
  : M ReadoutError :=
  other <- coerce other ;;
  if negb (Nat.eqb (number_of_qubits self) (number_of_qubits other))
  then raise (NoiseError DimensionMismatch)
  else
    probs <- lift (if front
                   then Py.dot (_probabilities self) (_probabilities other)
                   else Py.dot (_probabilities other) (_probabilities self)) ;;
    __init__ probs None.

(** The argument of [power]: Python accepts any object there. *)
Inductive PyNumber : Type :=
| PyInt (n : Z)
| PyFloat (x : float).

(** The loop [for _ in range(1, n): ret = ret.compose(self)], by the
    number of iterations left. *)
Fixpoint power_loop {K : Blas} (self : ReadoutError) (iterations : nat)
         (acc : ReadoutError)
  : M ReadoutError :=
  match iterations with
  | O => ret acc
  | S k => acc' <- compose acc (Instance self) false ;; power_loop self k acc'
  end.

(** [ReadoutError.power(n)]. *)
Definition power {K : Blas} (self : ReadoutError) (n : PyNumber) : M ReadoutError :=
  match n with
  | PyFloat _ => raise (NoiseError InvalidExponent)
  | PyInt n =>
      if (n <? 1)%Z then raise (NoiseError InvalidExponent)
      else acc <- copy self ;; power_loop self (Z.to_nat (n - 1)) acc
  end.

(** [ReadoutError._tensor_product(other, reverse=False)]. *)
Definition _tensor_product (self : ReadoutError) (other : operand) (reverse : bool)
  : M ReadoutError :=
  other <- coerce other ;;
  let probs := if reverse
               then Py.kron (_probabilities other) (_probabilities self)
               else Py.kron (_probabilities self) (_probabilities other) in
  __init__ probs None.

Definition tensor (self : ReadoutError) (other : operand) : M ReadoutError :=
  _tensor_product self other false.

Definition expand (self : ReadoutError) (other : operand) : M ReadoutError :=
  _tensor_product self other true.

(** ** The older variant, qiskit_aer/noise/readout_error.py

    No class attributes and no algebra: a constructor with the fixed
    threshold 1e-10 and [as_dict].  Its [_check_probabilities] is the same
    function, statement for statement. *)
Module QiskitAer.

Record ReadoutError : Type := mkReadoutError {
  _probabilities : matrix;
  _number_of_qubits : nat
}.

Definition __init__ (probabilities : matrix) : result ReadoutError :=
  rbind (_check_probabilities probabilities 1e-10) (fun _ =>
  Ok {| _probabilities := probabilities;
        _number_of_qubits := qubits_from_mat probabilities |}).

Definition as_dict (self : ReadoutError) : ErrorDict :=
  {| dict_type := "roerror";
     dict_operations := ["measure"%string];
     dict_probabilities := _probabilities self |}.

End QiskitAer.

Local Close Scope float_scope.
Local Open Scope nat_scope.

(** * Properties *)

(** ** Methods that neither read nor write the class attributes *)

(** A computation is stateless when its outcome is the same from every
    attribute state and it leaves the attributes as they were. *)
Definition stateless {A : Type} (m : M A) : Prop :=
  exists r : result A, forall st, m st = (r, st).

Lemma stateless_ret {A : Type} (a : A) : stateless (ret a).
Proof. exists (Ok a). reflexivity. Qed.

Lemma stateless_raise {A : Type} (e : exn) : stateless (@raise A e).
Proof. exists (Raise e). reflexivity. Qed.

Lemma stateless_lift {A : Type} (r : result A) : stateless (lift r).
Proof. exists r. reflexivity. Qed.

Lemma stateless_bind {A B : Type} (m : M A) (k : A -> M B) :
  stateless m -> (forall a, stateless (k a)) -> stateless (bind m k).
Proof.
  intros [r Hm] Hk. destruct r as [a|e].
  - destruct (Hk a) as [rb Hb]. exists rb. intros st.
    unfold bind. rewrite Hm. apply Hb.
  - exists (Raise e). intros st. unfold bind. rewrite Hm. reflexivity.
Qed.

Lemma stateless_if {A : Type} (b : bool) (m1 m2 : M A) :
  stateless m1 -> stateless m2 -> stateless (if b then m1 else m2).
Proof. destruct b; auto. Qed.

Create HintDb stateless_db.
#[local] Hint Resolve stateless_ret stateless_raise stateless_lift
  stateless_bind stateless_if : stateless_db.

Lemma stateless_init p a : stateless (__init__ p a).
Proof. unfold __init__. auto with stateless_db. Qed.

Lemma stateless_copy self : stateless (copy self).
Proof. unfold copy. auto with stateless_db. Qed.

Lemma stateless_coerce other : stateless (coerce other).
Proof. destruct other; simpl; auto using stateless_init with stateless_db. Qed.

#[local] Hint Resolve stateless_init stateless_copy stateless_coerce : stateless_db.

Lemma stateless_ideal {K : Blas} self : stateless (ideal self).
Proof. unfold ideal. auto with stateless_db. Qed.

Lemma stateless_as_dict self : stateless (as_dict self).
Proof. unfold as_dict. auto with stateless_db. Qed.

Lemma stateless_compose {K : Blas} self other front : stateless (compose self other front).
Proof.
  unfold compose. apply stateless_bind; [auto with stateless_db|].
  intros o. auto 6 with stateless_db.
Qed.

#[local] Hint Resolve stateless_compose : stateless_db.

Lemma stateless_power_loop {K : Blas} self k : forall acc, stateless (power_loop self k acc).
Proof.
  induction k as [|k IH]; intros acc; simpl; auto with stateless_db.
Qed.

Lemma stateless_power {K : Blas} self n : stateless (power self n).
Proof.
  destruct n as [n|x]; simpl; auto with stateless_db.
  destruct (n <? 1)%Z; auto using stateless_power_loop with stateless_db.
Qed.

Lemma stateless_tensor_product self other reverse :
  stateless (_tensor_product self other reverse).
Proof. unfold _tensor_product. auto with stateless_db. Qed.

(** What [outcome] and [attrs_after] are for a stateless computation. *)
Lemma stateless_outcome {A : Type} (m : M A) :
  stateless m -> forall st st', outcome m st = outcome m st' /\ attrs_after m st = st.
Proof.
  intros [r H] st st'. unfold outcome, attrs_after. rewrite (H st), (H st'). auto.
Qed.

Lemma stateless_run {A : Type} (m : M A) :
  stateless m -> forall st, m st = (outcome m st, st).
Proof.
  intros [r H] st. unfold outcome. rewrite H. reflexivity.
Qed.

(** ** The constructor *)

(** The tolerance a call of the constructor checks against. *)
Definition threshold_of (atol : option float) : float :=
  match atol with Some a => a | None => ATOL_DEFAULT end.

Lemma init_run p a st :
  __init__ p a st =
  (rbind (_check_probabilities p (threshold_of a)) (fun _ =>
     Ok {| _probabilities := p; _number_of_qubits := qubits_from_mat p |}), st).
Proof.
  unfold __init__, bind, lift, ret, threshold_of.
  destruct (_check_probabilities p _) as [[]|e]; reflexivity.
Qed.

Lemma init_ok p a st :
  _check_probabilities p (threshold_of a) = Ok tt ->
  __init__ p a st =
  (Ok {| _probabilities := p; _number_of_qubits := qubits_from_mat p |}, st).
Proof. intros H. rewrite init_run, H. reflexivity. Qed.

Lemma init_raise p a st e :
  _check_probabilities p (threshold_of a) = Raise e ->
  __init__ p a st = (Raise e, st).
Proof. intros H. rewrite init_run, H. reflexivity. Qed.

Lemma init_inv p a st self :
  outcome (__init__ p a) st = Ok self ->
  _check_probabilities p (threshold_of a) = Ok tt /\
  self = {| _probabilities := p; _number_of_qubits := qubits_from_mat p |}.
Proof.
  unfold outcome. rewrite init_run. simpl.
  destruct (_check_probabilities p _) as [[]|e]; simpl; intros H;
    [injection H as <-; auto | discriminate].
Qed.

(** An instance is valid when some call of the constructor returned it. *)
Definition constructed (self : ReadoutError) : Prop :=
  exists p a st, outcome (__init__ p a) st = Ok self.

Lemma check_rows_lengths n tol rows :
  check_rows n tol rows = Ok tt -> Forall (fun r => length r = n) rows.
Proof.
  induction rows as [|arr rest IH]; simpl; intros H; [constructor|].
  destruct (Nat.eqb (length arr) n) eqn:El; simpl in H; [|discriminate].
  destruct (PrimFloat.ltb _ _); [discriminate|].
  destruct (existsb _ _); [discriminate|].
  constructor; [apply Nat.eqb_eq; exact El | apply IH; exact H].
Qed.

(** The shape a matrix has when the checks pass: a non-empty square of
    side [2 ^ q]. *)
Definition square_pow2 (q : nat) (p : matrix) : Prop :=
  Py.ncols p = 2 ^ q /\ length p = 2 ^ q /\
  Forall (fun r => length r = 2 ^ q) p.

Lemma check_ok_shape p tol :
  _check_probabilities p tol = Ok tt -> square_pow2 (qubits_from_mat p) p.
Proof.
  unfold _check_probabilities, qubits_from_mat, Py.ncols, square_pow2.
  destruct p as [|row0 rest]; [discriminate|].
  cbn [hd]. unfold Py.int_log2.
  destruct (Nat.eqb (length row0) 0); [discriminate|]. cbn [rbind].
  destruct (Nat.eqb (2 ^ Nat.log2 (length row0)) (length row0)) eqn:E1;
    [|discriminate].
  destruct (Nat.eqb (length (row0 :: rest)) (length row0)) eqn:E2;
    [|discriminate].
  cbn [negb]. intros H.
  apply Nat.eqb_eq in E1, E2. apply check_rows_lengths in H.
  rewrite E1. auto.
Qed.

Lemma constructed_shape self :
  constructed self -> square_pow2 (number_of_qubits self) (probabilities self).
Proof.
  intros (p & a & st & H). apply init_inv in H as [Hc ->].
  apply check_ok_shape in Hc. exact Hc.
Qed.

Lemma square_pow2_qubits q p : square_pow2 q p -> qubits_from_mat p = q.
Proof.
  intros (Hc & _). unfold qubits_from_mat. rewrite Hc. apply Nat.log2_pow2. lia.
Qed.

Lemma square_pow2_nonempty q p : square_pow2 q p -> exists r rest, p = r :: rest.
Proof.
  intros (_ & Hl & _). destruct p as [|r rest]; [|eauto].
  simpl in Hl. pose proof (Nat.pow_nonzero 2 q). lia.
Qed.

(** ** Order on binary64 values *)

Lemma SFcompare_antisym (x y : SpecFloat.spec_float) :
  SpecFloat.SFcompare y x = option_map CompOpp (SpecFloat.SFcompare x y).
Proof.
  destruct x as [sx|sx| |sx mx ex], y as [sy|sy| |sy my ey]; simpl;
    try reflexivity;
    try (destruct sx; reflexivity); try (destruct sy; reflexivity);
    try (destruct sx, sy; reflexivity).
  destruct sx, sy; try reflexivity; f_equal;
    rewrite (Z.compare_antisym ex ey);
    destruct (ex ?= ey)%Z; simpl; try reflexivity.
  - f_equal. exact (eq_sym (Pos.compare_cont_antisym mx my Eq)).
  - exact (eq_sym (Pos.compare_cont_antisym mx my Eq)).
Qed.

(** [x <= y] excludes [y < x]; a NaN is on neither side of anything. *)
Lemma leb_not_ltb (x y : float) :
  PrimFloat.leb x y = true -> PrimFloat.ltb y x = false.
Proof.
  rewrite leb_spec, ltb_spec. unfold SpecFloat.SFleb, SpecFloat.SFltb.
  rewrite (SFcompare_antisym (Prim2SF x) (Prim2SF y)).
  destruct (SpecFloat.SFcompare (Prim2SF x) (Prim2SF y)) as [[]|];
    simpl; congruence.
Qed.

(** ** Serialisation *)

(** Modelled from the spec: [RTOL_DEFAULT] comes from the same absent
    module as [ATOL_DEFAULT]; no property below depends on its value. *)
Definition RTOL_DEFAULT : float := 1e-5.

(** The class attributes as the class statement leaves them. *)
Definition class_defaults : ClassAttrs :=
  {| ATOL := ATOL_DEFAULT; RTOL := RTOL_DEFAULT |}.

Definition identity_1q : ReadoutError :=
  {| _probabilities := [[1; 0]; [0; 1]]%float; _number_of_qubits := 1 |}.

(** C1 (as amended): for every instance, [as_dict] returns the record
    whose type is the fixed string "roerror", whose operations are the
    one-element list ["measure"], and whose probabilities are the stored
    matrix, rows and entries in the stored order; for an instance the
    constructor returned, that is the matrix it was given.  The older
    variant returns the same record. *)
Theorem as_dict_record :
  (forall (self : ReadoutError) (st : ClassAttrs),
      as_dict self st =
      (Ok {| dict_type := "roerror";
             dict_operations := ["measure"%string];
             dict_probabilities := probabilities self |}, st)) /\
  (forall (p : matrix) (a : option float) (st : ClassAttrs) (self : ReadoutError),
      outcome (__init__ p a) st = Ok self ->
      outcome (as_dict self) st =
      Ok {| dict_type := "roerror";
            dict_operations := ["measure"%string];
            dict_probabilities := p |}) /\
  (forall self : QiskitAer.ReadoutError,
      QiskitAer.as_dict self =
      {| dict_type := "roerror";
         dict_operations := ["measure"%string];
         dict_probabilities := QiskitAer._probabilities self |}).
Proof.
  split; [|split].
  - reflexivity.
  - intros p a st self H. apply init_inv in H as [_ ->]. reflexivity.
  - reflexivity.
Qed.

Lemma as_dict_record_witness :
  outcome (as_dict identity_1q) class_defaults =
  Ok {| dict_type := "roerror";
        dict_operations := ["measure"%string];
        dict_probabilities := [[1; 0]; [0; 1]]%float |}.
Proof.
  apply (proj1 (proj2 as_dict_record) [[1; 0]; [0; 1]]%float None class_defaults).
  reflexivity.
Defined.

(** C1, as first stated, fails: the one-qubit identity is a valid
    instance and the type field of its record is not "readout_error". *)
Lemma as_dict_type_counterexample :
  outcome (__init__ [[1; 0]; [0; 1]]%float None) class_defaults = Ok identity_1q /\
  exists d, outcome (as_dict identity_1q) class_defaults = Ok d /\
            dict_type d <> "readout_error"%string.
Proof.
  split; [reflexivity|].
  eexists; split; [reflexivity|]. simpl. discriminate.
Qed.

(** ** Tolerance setters *)

(** Away from NaN the setters do what C8 says: both raise the tolerance
    error for every value that compares below 0 or above [MAX_TOL = 1e-4]
    (so for 1e-3 and for -1e-9), leaving the attributes untouched; for every
    value in [0, MAX_TOL] they succeed and store it in their own attribute,
    leaving the other one. *)
Theorem tolerance_setters (v : float) (st : ClassAttrs) :
  (PrimFloat.ltb v 0 = true \/ PrimFloat.ltb MAX_TOL v = true ->
     atol_setter v st = (Raise (NoiseError InvalidTolerance), st) /\
     rtol_setter v st = (Raise (NoiseError InvalidTolerance), st)) /\
  (PrimFloat.leb 0 v = true /\ PrimFloat.leb v MAX_TOL = true ->
     atol_setter v st = (Ok tt, {| ATOL := v; RTOL := RTOL st |}) /\
     rtol_setter v st = (Ok tt, {| ATOL := ATOL st; RTOL := v |})) /\
  atol_setter 1e-3 st = (Raise (NoiseError InvalidTolerance), st) /\
  rtol_setter 1e-3 st = (Raise (NoiseError InvalidTolerance), st) /\
  atol_setter (-1e-9) st = (Raise (NoiseError InvalidTolerance), st) /\
  rtol_setter (-1e-9) st = (Raise (NoiseError InvalidTolerance), st) /\
  MAX_TOL = 1e-4%float.
Proof.
  split; [|split; [|repeat split]].
  - unfold atol_setter, rtol_setter. intros [H|H].
    + rewrite H. auto.
    + rewrite H. destruct (PrimFloat.ltb v 0); auto.
  - intros [Hlo Hhi]. apply leb_not_ltb in Hlo, Hhi.
    unfold atol_setter, rtol_setter. rewrite Hlo, Hhi. auto.
Qed.

Lemma tolerance_setters_witness :
  (atol_setter (-1)%float class_defaults
     = (Raise (NoiseError InvalidTolerance), class_defaults) /\
   rtol_setter (-1)%float class_defaults
     = (Raise (NoiseError InvalidTolerance), class_defaults)) /\
  (atol_setter 5e-5 class_defaults
     = (Ok tt, {| ATOL := 5e-5; RTOL := RTOL class_defaults |}) /\
   rtol_setter 5e-5 class_defaults
     = (Ok tt, {| ATOL := ATOL class_defaults; RTOL := 5e-5 |})).
Proof.
  split.
  - apply (tolerance_setters (-1)%float class_defaults). left. reflexivity.
  - apply (tolerance_setters 5e-5%float class_defaults). split; reflexivity.
Defined.

(** C8 at the value NaN: NaN is outside [0, MAX_TOL], since neither
    bound holds of it, and yet both setters accept it and store it.  Their
    guards are the comparisons [< 0] and [> max_tol], and every comparison
    with NaN is false. *)
Theorem tolerance_setters_nan (st : ClassAttrs) :
  PrimFloat.leb 0 nan = false /\
  PrimFloat.leb nan MAX_TOL = false /\
  atol_setter nan st = (Ok tt, {| ATOL := nan; RTOL := RTOL st |}) /\
  rtol_setter nan st = (Ok tt, {| ATOL := ATOL st; RTOL := nan |}).
Proof. repeat split; reflexivity. Qed.

(** ** The 1x1 matrix *)

Definition trivial_0q : ReadoutError :=
  {| _probabilities := [[1]]%float; _number_of_qubits := 0 |}.

(** C10: [[1.0]] is accepted.  Length 1 passes the power-of-two test as
    2^0, the row loop passes its three tests on the single row, and the
    constructor returns the zero-qubit instance, under the default
    tolerance and in the older variant alike. *)
Theorem one_by_one_accepted (st : ClassAttrs) :
  Py.int_log2 1 = Ok 0 /\ 2 ^ 0 = 1 /\
  check_rows 1 ATOL_DEFAULT [[1]]%float = Ok tt /\
  _check_probabilities [[1]]%float ATOL_DEFAULT = Ok tt /\
  __init__ [[1]]%float None st = (Ok trivial_0q, st) /\
  number_of_qubits trivial_0q = 0 /\
  constructed trivial_0q /\
  QiskitAer.__init__ [[1]]%float =
    Ok {| QiskitAer._probabilities := [[1]]%float;
          QiskitAer._number_of_qubits := 0 |}.
Proof.
  repeat split; try reflexivity.
  exists [[1]]%float, None, st. reflexivity.
Qed.

(** ** Order of the validation checks *)

(** The validation as the specification words it: the checks in order,
    the first one that fails naming the error; [None] when all pass. *)
Module Spec.

Definition is_power_of_two (n : nat) : bool :=
  existsb (fun k => Nat.eqb (2 ^ k) n) (seq 0 (S n)).

Definition row_check (N : nat) (atol : float) (row : vector)
  : option NoiseErrorKind :=
  if negb (Nat.eqb (length row) N) then Some InvalidDimension
  else if PrimFloat.ltb atol (PrimFloat.abs (PrimFloat.sub (Py.sum row) 1))
  then Some NotNormalized
  else if existsb (fun x => PrimFloat.ltb x 0) row
  then Some NegativeProbability
  else None.

Fixpoint first_failure {A : Type} (check : A -> option NoiseErrorKind)
  (xs : list A) : option NoiseErrorKind :=
  match xs with
  | [] => None
  | x :: rest =>
      match check x with
      | Some k => Some k
      | None => first_failure check rest
      end
  end.

Definition validate (rows : matrix) (atol : float) : option NoiseErrorKind :=
  if Nat.eqb (length rows) 0 then Some EmptyInput
  else
    let N := length (hd [] rows) in
    if negb (is_power_of_two N) then Some InvalidDimension
    else if negb (Nat.eqb (length rows) N) then Some InvalidDimension
    else first_failure (row_check N atol) rows.

End Spec.

Lemma is_power_of_two_log2 (n : nat) :
  n <> 0 -> Spec.is_power_of_two n = Nat.eqb (2 ^ Nat.log2 n) n.
Proof.
  intros Hn. unfold Spec.is_power_of_two.
  destruct (Nat.eqb (2 ^ Nat.log2 n) n) eqn:E.
  - apply existsb_exists. exists (Nat.log2 n). split; [|exact E].
    apply in_seq. pose proof (Nat.log2_lt_lin n). lia.
  - destruct (existsb _ _) eqn:Ex; [|reflexivity].
    apply existsb_exists in Ex as (k & _ & Hk). apply Nat.eqb_eq in Hk.
    subst n. rewrite Nat.log2_pow2, Nat.eqb_refl in E by lia. discriminate.
Qed.

Lemma check_rows_first_failure N atol rows :
  check_rows N atol rows =
  match Spec.first_failure (Spec.row_check N atol) rows with
  | None => Ok tt
  | Some k => Raise (NoiseError k)
  end.
Proof.
  induction rows as [|row rest IH]; simpl; [reflexivity|].
  unfold Spec.row_check.
  destruct (negb (Nat.eqb (length row) N)); [reflexivity|].
  destruct (PrimFloat.ltb atol _); [reflexivity|].
  destruct (existsb _ row); [reflexivity|].
  exact IH.
Qed.

(** X3: On every input whose first row is not empty (and on the empty input)
    the code reports what the ordered checks of the specification
    report. *)
Lemma check_probabilities_order (rows : matrix) (atol : float) :
  Py.ncols rows <> 0 \/ rows = [] ->
  _check_probabilities rows atol =
  match Spec.validate rows atol with
  | None => Ok tt
  | Some k => Raise (NoiseError k)
  end.
Proof.
  intros H. destruct rows as [|row0 rest]; [reflexivity|].
  destruct H as [H|H]; [|discriminate]. unfold Py.ncols in H. cbn [hd] in H.
  unfold _check_probabilities, Spec.validate, Py.int_log2. cbn [hd].
  rewrite (proj2 (Nat.eqb_neq _ _) H). cbn [rbind].
  rewrite (is_power_of_two_log2 _ H).
  replace (Nat.eqb (length (row0 :: rest)) 0) with false by reflexivity.
  destruct (negb (Nat.eqb (2 ^ Nat.log2 (length row0)) (length row0)));
    [reflexivity|].
  destruct (negb (Nat.eqb (length (row0 :: rest)) (length row0)));
    [reflexivity|].
  apply check_rows_first_failure.
Qed.

Lemma check_probabilities_order_witness :
  _check_probabilities [[0.5; 0.5]; [0.25; 0.5]]%float ATOL_DEFAULT =
  Raise (NoiseError NotNormalized).
Proof.
  rewrite (check_probabilities_order [[0.5; 0.5]; [0.25; 0.5]]%float ATOL_DEFAULT).
  - reflexivity.
  - left. vm_compute. discriminate.
Defined.

(** C3 at the input [[ ]] (one row, no entries): the length 0 is not a
    power of two, so the ordered checks report the dimension error, but the
    code raises [OverflowError] out of [int(np.log2(0))] before it reaches
    its power-of-two test. *)
Theorem check_probabilities_empty_row (atol : float) (st : ClassAttrs) :
  Spec.validate [[]] atol = Some InvalidDimension /\
  _check_probabilities [[]] atol = Raise OverflowError /\
  __init__ [[]] (Some atol) st = (Raise OverflowError, st) /\
  __init__ [[]] None st = (Raise OverflowError, st).
Proof. repeat split; reflexivity. Qed.

(** ** What the tolerance attributes influence *)

Definition with_rtol (r : float) (st : ClassAttrs) : ClassAttrs :=
  {| ATOL := ATOL st; RTOL := r |}.

(** A computation is blind to RTOL when changing that attribute before
    the run changes neither the outcome nor anything but that attribute
    after it. *)
Definition rtol_blind {A : Type} (m : M A) : Prop :=
  forall (st : ClassAttrs) (r : float),
    outcome m (with_rtol r st) = outcome m st /\
    attrs_after m (with_rtol r st) = with_rtol r (attrs_after m st).

Lemma stateless_rtol_blind {A : Type} (m : M A) : stateless m -> rtol_blind m.
Proof.
  intros H st r.
  destruct (stateless_outcome m H (with_rtol r st) st) as [Ho Ha].
  destruct (stateless_outcome m H st st) as [_ Ha'].
  rewrite Ho, Ha, Ha'. auto.
Qed.

(** C9: RTOL is read by no operation.  Two runs of the constructor, of
    [compose], [tensor], [expand], [power], [ideal] or [as_dict] on the same
    arguments, from attribute states that differ only in RTOL, end with the
    same outcome, and the attributes still differ only in RTOL. *)
Theorem rtol_never_read {K : Blas} :
  (forall p a, rtol_blind (__init__ p a)) /\
  (forall self other front, rtol_blind (compose self other front)) /\
  (forall self other, rtol_blind (tensor self other)) /\
  (forall self other, rtol_blind (expand self other)) /\
  (forall self n, rtol_blind (power self n)) /\
  (forall self, rtol_blind (ideal self)) /\
  (forall self, rtol_blind (as_dict self)).
Proof.
  refine (conj _ (conj _ (conj _ (conj _ (conj _ (conj _ _))))));
    intros; apply stateless_rtol_blind.
  - apply stateless_init.
  - apply stateless_compose.
  - apply stateless_tensor_product.
  - apply stateless_tensor_product.
  - apply stateless_power.
  - apply stateless_ideal.
  - apply stateless_as_dict.
Qed.

(** A row's sum is further from 1 than the tolerance. *)
Definition deviates (tol : float) (row : vector) : bool :=
  PrimFloat.ltb tol (PrimFloat.abs (PrimFloat.sub (Py.sum row) 1)).

Definition has_negative (row : vector) : bool :=
  existsb (fun x => PrimFloat.ltb x 0) row.

Lemma check_rows_nonnegative N tol rows :
  Forall (fun r => length r = N) rows ->
  forallb (fun r => negb (has_negative r)) rows = true ->
  check_rows N tol rows =
  if existsb (deviates tol) rows then Raise (NoiseError NotNormalized) else Ok tt.
Proof.
  induction 1 as [|row rest Hlen _ IH]; simpl; [reflexivity|].
  intros Hneg. apply andb_prop in Hneg as [Hrow Hrest].
  rewrite Hlen, Nat.eqb_refl. cbn [negb].
  unfold deviates at 1. destruct (PrimFloat.ltb tol _); [reflexivity|].
  unfold has_negative in Hrow. apply negb_true_iff in Hrow. rewrite Hrow.
  cbn [orb]. apply IH. exact Hrest.
Qed.

Lemma check_square_nonnegative q tol p :
  square_pow2 q p ->
  forallb (fun r => negb (has_negative r)) p = true ->
  _check_probabilities p tol =
  if existsb (deviates tol) p then Raise (NoiseError NotNormalized) else Ok tt.
Proof.
  intros Hsq Hneg.
  destruct (square_pow2_nonempty q p Hsq) as (row0 & rest & ->).
  destruct Hsq as (Hc & Hl & Hrows). unfold Py.ncols in Hc. cbn [hd] in Hc.
  unfold _check_probabilities, Py.int_log2.
  pose proof (Nat.pow_nonzero 2 q ltac:(lia)) as Hnz.
  rewrite Hc, (proj2 (Nat.eqb_neq _ _) Hnz). cbn [rbind].
  rewrite Nat.log2_pow2 by lia. rewrite Nat.eqb_refl, Hl, Nat.eqb_refl.
  cbn [negb]. apply check_rows_nonnegative; assumption.
Qed.

(** C4 (as amended): a successful [atol] setter only stores the value in
    the class attribute ATOL.  Construction without an explicit tolerance
    is as before the call: it checks against [ATOL_DEFAULT], whatever was
    set; on a square matrix of power-of-two side without negative entries
    it raises the normalisation error exactly when some row's sum is
    further from 1 than [ATOL_DEFAULT]. *)
Theorem atol_setter_effect (t : float) (st st' : ClassAttrs) :
  atol_setter t st = (Ok tt, st') ->
  st' = {| ATOL := t; RTOL := RTOL st |} /\
  (forall p, outcome (__init__ p None) st' = outcome (__init__ p None) st) /\
  (forall p, outcome (__init__ p None) st'
             = outcome (__init__ p (Some ATOL_DEFAULT)) st') /\
  (forall p q,
      square_pow2 q p ->
      forallb (fun r => negb (has_negative r)) p = true ->
      (outcome (__init__ p None) st' = Raise (NoiseError NotNormalized) <->
       existsb (deviates ATOL_DEFAULT) p = true)).
Proof.
  intros Hset. split; [|split; [|split]].
  - unfold atol_setter in Hset.
    destruct (PrimFloat.ltb t 0); [discriminate|].
    destruct (PrimFloat.ltb MAX_TOL t); [discriminate|].
    unfold bind, get_attrs, put_attrs in Hset. injection Hset as <-. reflexivity.
  - intros p. apply (stateless_outcome _ (stateless_init p None)).
  - intros p. unfold outcome. rewrite !init_run. reflexivity.
  - intros p q Hsq Hneg. unfold outcome. rewrite init_run. cbn [fst threshold_of].
    rewrite (check_square_nonnegative q _ p) by assumption.
    destruct (existsb _ p); split; intros; (reflexivity || discriminate).
Qed.

Lemma atol_setter_effect_witness :
  outcome (__init__ [[0.75; 0.5]; [0; 1]]%float None)
          {| ATOL := 1e-5; RTOL := RTOL_DEFAULT |}
    = Raise (NoiseError NotNormalized) <->
  existsb (deviates ATOL_DEFAULT) [[0.75; 0.5]; [0; 1]]%float = true.
Proof.
  refine (proj2 (proj2 (proj2
    (atol_setter_effect 1e-5%float class_defaults
       {| ATOL := 1e-5; RTOL := RTOL_DEFAULT |} _)))
    [[0.75; 0.5]; [0; 1]]%float 1 _ _).
  - reflexivity.
  - vm_compute. repeat split; repeat constructor.
  - reflexivity.
Defined.

(** C4, as first stated, fails: after ATOL is set to 1e-5, a matrix whose
    rows are all within 1e-5 of summing to 1 is still refused as not
    normalised, because one row is more than 1e-8 off. *)
Lemma atol_setter_counterexample :
  atol_setter 1e-5 class_defaults
    = (Ok tt, {| ATOL := 1e-5; RTOL := RTOL_DEFAULT |}) /\
  existsb (deviates 1e-5) [[1.000001; 0]; [0; 1]]%float = false /\
  outcome (__init__ [[1.000001; 0]; [0; 1]]%float None)
          {| ATOL := 1e-5; RTOL := RTOL_DEFAULT |}
    = Raise (NoiseError NotNormalized).
Proof. repeat split; reflexivity. Qed.

(** ** Powers *)

Lemma bind_ret_r {A : Type} (m : M A) (st : ClassAttrs) : bind m ret st = m st.
Proof. unfold bind, ret. destruct (m st) as [[a|e] st']; reflexivity. Qed.

(** One more turn of the loop is one more [compose] on the right of the
    accumulated value. *)
Lemma power_loop_succ {K : Blas} self k : forall acc st,
  power_loop self (S k) acc st =
  bind (power_loop self k acc) (fun r => compose r (Instance self) false) st.
Proof.
  induction k as [|k IH]; intros acc st.
  - cbn [power_loop]. rewrite bind_ret_r. reflexivity.
  - change (power_loop self (S (S k)) acc st)
      with (bind (compose acc (Instance self) false)
                 (fun acc' => power_loop self (S k) acc') st).
    change (power_loop self (S k) acc)
      with (bind (compose acc (Instance self) false)
                 (fun acc' => power_loop self k acc')).
    unfold bind at 1 2 3.
    destruct (compose acc (Instance self) false st) as [[acc'|e] st'];
      [|reflexivity].
    rewrite IH. reflexivity.
Qed.

(** C5: [power] raises the exponent error for every argument that is
    not an integer or is an integer below 1 (so for 0 and -1); [power(1)]
    returns the instance itself; [power(2)] is [compose(self)] in the
    default order; and each further unit of the exponent composes the
    accumulated value once more with [self], starting from a copy of
    [self]. *)
Theorem power_spec {K : Blas} (self : ReadoutError) (st : ClassAttrs) :
  (forall n : Z, (n < 1)%Z ->
     power self (PyInt n) st = (Raise (NoiseError InvalidExponent), st)) /\
  (forall x : float,
     power self (PyFloat x) st = (Raise (NoiseError InvalidExponent), st)) /\
  power self (PyInt 0) st = (Raise (NoiseError InvalidExponent), st) /\
  power self (PyInt (-1)) st = (Raise (NoiseError InvalidExponent), st) /\
  power self (PyInt 1) st = (Ok self, st) /\
  power self (PyInt 2) st = compose self (Instance self) false st /\
  (forall n : Z, (1 <= n)%Z ->
     power self (PyInt (n + 1)) st =
     bind (power self (PyInt n))
          (fun acc => compose acc (Instance self) false) st).
Proof.
  refine (conj _ (conj _ (conj _ (conj _ (conj _ (conj _ _)))))).
  - intros n Hn. unfold power. apply Z.ltb_lt in Hn. rewrite Hn. reflexivity.
  - reflexivity.
  - reflexivity.
  - reflexivity.
  - reflexivity.
  - change (power self (PyInt 2) st) with (power_loop self 1 self st).
    rewrite power_loop_succ. reflexivity.
  - intros n Hn. unfold power, copy.
    destruct (Z.ltb_spec n 1) as [Hlt|_]; [lia|].
    destruct (Z.ltb_spec (n + 1) 1) as [Hlt|_]; [lia|].
    replace (Z.to_nat (n + 1 - 1)) with (S (Z.to_nat (n - 1))) by lia.
    change (bind (ret self) (fun acc => power_loop self (S (Z.to_nat (n - 1))) acc) st)
      with (power_loop self (S (Z.to_nat (n - 1))) self st).
    rewrite power_loop_succ. reflexivity.
Qed.

Lemma power_spec_witness :
  power (K := fused_in_order) identity_1q (PyInt (-7)) class_defaults
    = (Raise (NoiseError InvalidExponent), class_defaults) /\
  power (K := fused_in_order) identity_1q (PyInt (2 + 1)) class_defaults
    = bind (power (K := fused_in_order) identity_1q (PyInt 2))
           (fun acc => compose (K := fused_in_order) acc (Instance identity_1q) false)
           class_defaults.
Proof.
  split.
  - apply (proj1 (power_spec (K := fused_in_order) identity_1q class_defaults)
                 (-7)%Z). lia.
  - apply (proj2 (proj2 (proj2 (proj2 (proj2 (proj2
      (power_spec (K := fused_in_order) identity_1q class_defaults)))))) 2%Z). lia.
Defined.

(** ** Shapes of products *)

Lemma check_square_rows q tol p :
  square_pow2 q p -> _check_probabilities p tol = check_rows (2 ^ q) tol p.
Proof.
  intros Hsq.
  destruct (square_pow2_nonempty q p Hsq) as (row0 & rest & ->).
  destruct Hsq as (Hc & Hl & _). unfold Py.ncols in Hc. cbn [hd] in Hc.
  unfold _check_probabilities, Py.int_log2.
  pose proof (Nat.pow_nonzero 2 q ltac:(lia)) as Hnz.
  rewrite Hc, (proj2 (Nat.eqb_neq _ _) Hnz). cbn [rbind].
  rewrite Nat.log2_pow2 by lia. rewrite Nat.eqb_refl, Hl, Nat.eqb_refl.
  reflexivity.
Qed.

(** On rows of the right length the loop can only object to a sum or to
    a sign. *)
Lemma check_rows_errors N tol rows e :
  Forall (fun r => length r = N) rows ->
  check_rows N tol rows = Raise e ->
  e = NoiseError NotNormalized \/ e = NoiseError NegativeProbability.
Proof.
  induction 1 as [|row rest Hlen _ IH]; simpl; [discriminate|].
  rewrite Hlen, Nat.eqb_refl. cbn [negb].
  destruct (PrimFloat.ltb tol _); [intros [= <-]; auto|].
  destruct (existsb _ row); [intros [= <-]; auto|].
  exact IH.
Qed.

Lemma revalidation_errors q p e :
  square_pow2 q p ->
  _check_probabilities p ATOL_DEFAULT = Raise e ->
  e = NoiseError NotNormalized \/ e = NoiseError NegativeProbability.
Proof.
  intros Hsq. rewrite (check_square_rows q _ p Hsq).
  destruct Hsq as (_ & _ & Hrows). apply check_rows_errors. exact Hrows.
Qed.

(** The array [np.dot] builds, when the shapes agree. *)
Definition dot_array {K : Blas} (a b : matrix) : matrix :=
  map (fun ir =>
         map (fun j => gemm (fst ir) j (snd ir) (Py.column j b))
             (seq 0 (Py.ncols b)))
      (combine (seq 0 (length a)) a).

Lemma dot_aligned {K : Blas} a b :
  Py.ncols a = length b -> Py.dot a b = Ok (dot_array a b).
Proof. intros H. unfold Py.dot. rewrite H, Nat.eqb_refl. reflexivity. Qed.

Lemma nth_enumerate {A : Type} (l : list A) (i : nat) (d : nat * A) :
  i < length l ->
  nth i (combine (seq 0 (length l)) l) d = (i, nth i l (snd d)).
Proof.
  intros Hi.
  rewrite (nth_indep _ d (0, snd d))
    by (rewrite length_combine, length_seq, Nat.min_id; exact Hi).
  rewrite combine_nth by apply length_seq.
  rewrite seq_nth by exact Hi. reflexivity.
Qed.

(** Entry [(i, j)] of the product is what the library makes of row [i]
    of the left factor and column [j] of the right one. *)
Lemma dot_entry {K : Blas} a b i j :
  i < length a -> j < Py.ncols b ->
  nth j (nth i (dot_array a b) []) 0%float
  = gemm i j (nth i a []) (Py.column j b).
Proof.
  intros Hi Hj. unfold dot_array.
  set (f := fun ir : nat * vector =>
              map (fun j0 => gemm (fst ir) j0 (snd ir) (Py.column j0 b))
                  (seq 0 (Py.ncols b))).
  rewrite (nth_indep _ [] (f (0, [])))
    by (rewrite length_map, length_combine, length_seq, Nat.min_id; exact Hi).
  rewrite (map_nth f), nth_enumerate by exact Hi. unfold f. cbn [fst snd].
  rewrite (nth_indep _ 0%float (gemm i 0 (nth i a []) (Py.column 0 b)))
    by (rewrite length_map, length_seq; exact Hj).
  rewrite (map_nth (fun j0 => gemm i j0 (nth i a []) (Py.column j0 b))
                   (seq 0 (Py.ncols b)) 0 j).
  rewrite seq_nth by exact Hj. reflexivity.
Qed.

Lemma column_length j (b : matrix) : length (Py.column j b) = length b.
Proof. unfold Py.column. apply length_map. Qed.

(** Each entry of the product of two aligned arrays adds up the products
    of a row of the left factor with a column of the right one. *)
Lemma dot_entry_accumulates {K : Blas} a b i j :
  i < length a -> j < Py.ncols b ->
  length (nth i a []) = length b ->
  accumulates (nth i a []) (Py.column j b)
              (nth j (nth i (dot_array a b) []) 0%float).
Proof.
  intros Hi Hj Hlen. rewrite (dot_entry a b i j Hi Hj).
  apply gemm_accumulates. rewrite column_length. exact Hlen.
Qed.

Lemma dot_square {K : Blas} q a b :
  square_pow2 q a -> square_pow2 q b -> square_pow2 q (dot_array a b).
Proof.
  intros Ha Hb.
  destruct (square_pow2_nonempty q a Ha) as (ra & resta & ->).
  destruct Ha as (_ & Hla & _). destruct Hb as (Hcb & _ & _).
  unfold square_pow2, dot_array. rewrite <- Hcb.
  split; [|split].
  - unfold Py.ncols at 1. cbn [length seq combine map hd].
    rewrite length_map, length_seq. reflexivity.
  - rewrite length_map, length_combine, length_seq, Nat.min_id, Hla, Hcb.
    reflexivity.
  - apply Forall_map. apply Forall_forall. intros ir _.
    rewrite length_map, length_seq. reflexivity.
Qed.

Lemma length_flat_map_const {A B : Type} (f : A -> list B) (n : nat) (l : list A) :
  (forall x, length (f x) = n) -> length (flat_map f l) = length l * n.
Proof.
  intros Hf. induction l as [|x l IH]; simpl; [reflexivity|].
  rewrite length_app, Hf, IH. reflexivity.
Qed.

Lemma kron_row_length ra rb : length (Py.kron_row ra rb) = length ra * length rb.
Proof.
  unfold Py.kron_row. apply length_flat_map_const.
  intros x. apply length_map.
Qed.

Lemma kron_square qa qb a b :
  square_pow2 qa a -> square_pow2 qb b -> square_pow2 (qa + qb) (Py.kron a b).
Proof.
  intros Ha Hb.
  destruct (square_pow2_nonempty qa a Ha) as (ra & resta & ->).
  destruct (square_pow2_nonempty qb b Hb) as (rb & restb & ->).
  destruct Ha as (Hca & Hla & Hra). destruct Hb as (Hcb & Hlb & Hrb).
  unfold Py.ncols in Hca, Hcb. cbn [hd] in Hca, Hcb.
  unfold square_pow2. rewrite Nat.pow_add_r.
  split; [|split].
  - unfold Py.ncols, Py.kron. cbn [flat_map map app hd].
    rewrite kron_row_length, Hca, Hcb. reflexivity.
  - unfold Py.kron.
    rewrite (length_flat_map_const _ (length (rb :: restb)))
      by (intros x; apply length_map).
    rewrite Hla, Hlb. reflexivity.
  - unfold Py.kron. apply Forall_flat_map.
    eapply Forall_impl; [|exact Hra]. intros xa Hxa.
    apply Forall_map. eapply Forall_impl; [|exact Hrb]. intros xb Hxb.
    rewrite kron_row_length, Hxa, Hxb. reflexivity.
Qed.

(** ** Composition *)

Lemma compose_run {K : Blas} self other front st :
  compose self (Instance other) front st =
  if negb (Nat.eqb (number_of_qubits self) (number_of_qubits other))
  then (Raise (NoiseError DimensionMismatch), st)
  else match (if front
              then Py.dot (probabilities self) (probabilities other)
              else Py.dot (probabilities other) (probabilities self)) with
       | Ok probs => __init__ probs None st
       | Raise e => (Raise e, st)
       end.
Proof.
  unfold compose, coerce, bind, ret, raise, lift, probabilities.
  destruct (negb _); [reflexivity|].
  destruct front; destruct (Py.dot _ _); reflexivity.
Qed.

Lemma square_row_length q p i :
  square_pow2 q p -> i < 2 ^ q -> length (nth i p []) = 2 ^ q.
Proof.
  intros (_ & Hl & Hrows) Hi.
  apply (proj1 (Forall_forall _ _) Hrows). apply nth_In. rewrite Hl. exact Hi.
Qed.

(** C2 (as amended): for valid instances [self] and [other], [compose]
    raises the mismatch error when the qubit counts differ.  When they
    agree, the product B.A (default order) or A.B ([front]) is formed, with
    A the matrix of [self] and B that of [other]: each entry (i, j) adds up
    the products of row i of the left factor with column j of the right
    one, in the order and with the rounding of the numeric library.  The
    product is handed to the constructor under the default tolerance: if it
    passes the checks the result is the instance holding it, on the same
    number of qubits; if not, [compose] raises the constructor's error,
    which can only be the normalisation or the sign error. *)
Theorem compose_spec {K : Blas} (self other : ReadoutError) (front : bool)
        (st : ClassAttrs) :
  constructed self -> constructed other ->
  (number_of_qubits other <> number_of_qubits self ->
     compose self (Instance other) front st
     = (Raise (NoiseError DimensionMismatch), st)) /\
  (number_of_qubits other = number_of_qubits self ->
     let A := probabilities self in
     let B := probabilities other in
     let probs := if front then dot_array A B else dot_array B A in
     (if front then Py.dot A B else Py.dot B A) = Ok probs /\
     (forall i j, i < 2 ^ number_of_qubits self -> j < 2 ^ number_of_qubits self ->
        accumulates (nth i (if front then A else B) [])
                    (Py.column j (if front then B else A))
                    (nth j (nth i probs []) 0%float)) /\
     compose self (Instance other) front st = __init__ probs None st /\
     (_check_probabilities probs ATOL_DEFAULT = Ok tt ->
        compose self (Instance other) front st
        = (Ok {| _probabilities := probs;
                 _number_of_qubits := number_of_qubits self |}, st)) /\
     (forall e, _check_probabilities probs ATOL_DEFAULT = Raise e ->
        compose self (Instance other) front st = (Raise e, st) /\
        (e = NoiseError NotNormalized \/ e = NoiseError NegativeProbability))).
Proof.
  intros Hs Ho. apply constructed_shape in Hs, Ho. split.
  - intros Hne. rewrite compose_run.
    destruct (Nat.eqb_spec (number_of_qubits self) (number_of_qubits other));
      [congruence|reflexivity].
  - intros Heq A B probs. rewrite Heq in Ho.
    assert (Hdot : (if front then Py.dot A B else Py.dot B A) = Ok probs).
    { subst probs. destruct Hs as (Hcs & Hls & _), Ho as (Hco & Hlo & _).
      destruct front; apply dot_aligned; unfold A, B; congruence. }
    assert (Hsq : square_pow2 (number_of_qubits self) probs).
    { subst probs. destruct front; apply dot_square; assumption. }
    assert (Hrun : compose self (Instance other) front st = __init__ probs None st).
    { rewrite compose_run, Heq, Nat.eqb_refl. cbn [negb].
      fold A B. rewrite Hdot. reflexivity. }
    split; [exact Hdot|]. split; [|split; [exact Hrun|split]].
    + intros i j Hi Hj. subst probs.
      pose proof (square_row_length _ _ i Hs Hi) as Hrs.
      pose proof (square_row_length _ _ i Ho Hi) as Hro.
      destruct Hs as (Hcs & Hls & _), Ho as (Hco & Hlo & _).
      assert (His : i < length A) by exact (eq_ind_r (fun n => i < n) Hi Hls).
      assert (Hio : i < length B) by exact (eq_ind_r (fun n => i < n) Hi Hlo).
      assert (Hjs : j < Py.ncols A) by exact (eq_ind_r (fun n => j < n) Hj Hcs).
      assert (Hjo : j < Py.ncols B) by exact (eq_ind_r (fun n => j < n) Hj Hco).
      destruct front; apply dot_entry_accumulates; try assumption.
      * exact (eq_trans Hrs (eq_sym Hlo)).
      * exact (eq_trans Hro (eq_sym Hls)).
    + intros Hok. rewrite Hrun, (init_ok probs None st Hok).
      rewrite (square_pow2_qubits _ _ Hsq). reflexivity.
    + intros e He. split.
      * rewrite Hrun. apply init_raise. exact He.
      * apply (revalidation_errors _ _ _ Hsq He).
Qed.

Definition noisy_1q : ReadoutError :=
  {| _probabilities := [[0.9; 0.1]; [0.2; 0.8]]%float; _number_of_qubits := 1 |}.

Lemma constructed_identity_1q : constructed identity_1q.
Proof. exists [[1; 0]; [0; 1]]%float, None, class_defaults. reflexivity. Qed.

Lemma constructed_noisy_1q : constructed noisy_1q.
Proof. exists [[0.9; 0.1]; [0.2; 0.8]]%float, None, class_defaults. reflexivity. Qed.

Lemma constructed_trivial_0q : constructed trivial_0q.
Proof. exists [[1]]%float, None, class_defaults. reflexivity. Qed.

Lemma compose_spec_witness :
  compose (K := fused_in_order) noisy_1q (Instance trivial_0q) false class_defaults
    = (Raise (NoiseError DimensionMismatch), class_defaults) /\
  compose (K := fused_in_order) noisy_1q (Instance identity_1q) false class_defaults
    = (Ok noisy_1q, class_defaults).
Proof.
  split.
  - apply (proj1 (compose_spec (K := fused_in_order) noisy_1q trivial_0q false
                    class_defaults constructed_noisy_1q constructed_trivial_0q)).
    vm_compute. discriminate.
  - refine (proj1 (proj2 (proj2 (proj2 (proj2
      (compose_spec (K := fused_in_order) noisy_1q identity_1q false class_defaults
         constructed_noisy_1q constructed_identity_1q) _)))) _);
      reflexivity.
Defined.

(** A matrix within the default tolerance of the identity. *)
Definition near_identity_1q : ReadoutError :=
  {| _probabilities := [[1.000000009; 0]; [0; 1]]%float; _number_of_qubits := 1 |}.

Lemma gemm_sparse {K : Blas} i j u v k :
  length u = length v -> k < length u ->
  (forall m, m < length u -> m <> k ->
             silent (nth m u 0%float) (nth m v 0%float)) ->
  PrimFloat.add 0 (PrimFloat.mul (nth k u 0%float) (nth k v 0%float))
  = PrimFloat.mul (nth k u 0%float) (nth k v 0%float) ->
  gemm i j u v = PrimFloat.mul (nth k u 0%float) (nth k v 0%float).
Proof.
  intros Hlen. apply accumulates_sparse. apply gemm_accumulates. exact Hlen.
Qed.

Lemma gemm_silent {K : Blas} i j u v :
  length u = length v ->
  (forall m, m < length u -> silent (nth m u 0%float) (nth m v 0%float)) ->
  gemm i j u v = 0%float.
Proof.
  intros Hlen. apply accumulates_silent. apply gemm_accumulates. exact Hlen.
Qed.

(** Discharges the side conditions of [gemm_sparse] and [gemm_silent] on
    vectors given entry by entry. *)
Ltac silent_entries :=
  let m := fresh "m" in
  intros m; intros;
  do 4 (try (destruct m as [|m]));
  cbn [nth length] in *; try lia;
  first [ left; split; reflexivity | right; split; reflexivity ].

(** Whatever the library's rounding, the product of the near-identity
    with itself has the square of its first entry in the corner and is
    refused. *)
Lemma compose_near_identity {K : Blas} (front : bool) (st : ClassAttrs) :
  compose near_identity_1q (Instance near_identity_1q) front st
  = (Raise (NoiseError NotNormalized), st).
Proof.
  rewrite compose_run. cbn [number_of_qubits near_identity_1q _number_of_qubits
                             Nat.eqb negb].
  assert (Hd : Py.dot (probabilities near_identity_1q) (probabilities near_identity_1q)
               = Ok [[PrimFloat.mul 1.000000009 1.000000009; 0]; [0; 1]]%float).
  { rewrite dot_aligned by reflexivity. f_equal. unfold dot_array.
    cbn [probabilities near_identity_1q _probabilities Py.ncols Py.column
         length hd seq combine map fst snd nth].
    rewrite (gemm_sparse 0 0 _ _ 0) by (try reflexivity; try (simpl; lia); silent_entries).
    rewrite (gemm_silent 0 1) by (try reflexivity; silent_entries).
    rewrite (gemm_silent 1 0) by (try reflexivity; silent_entries).
    rewrite (gemm_sparse 1 1 _ _ 1) by (try reflexivity; try (simpl; lia); silent_entries).
    reflexivity. }
  destruct front; rewrite Hd; reflexivity.
Qed.

(** C2, as first stated, fails: a valid instance composed with itself
    (equal qubit counts) gives no result in either order; the product's
    first row sums to more than 1 + 1e-8 and the constructor refuses it. *)
Lemma compose_counterexample :
  outcome (__init__ [[1.000000009; 0]; [0; 1]]%float None) class_defaults
    = Ok near_identity_1q /\
  outcome (compose (K := fused_in_order) near_identity_1q
                   (Instance near_identity_1q) false) class_defaults
    = Raise (NoiseError NotNormalized) /\
  outcome (compose (K := fused_in_order) near_identity_1q
                   (Instance near_identity_1q) true) class_defaults
    = Raise (NoiseError NotNormalized).
Proof. repeat split; reflexivity. Qed.

(** ** Tensor products *)

Lemma tensor_product_run self other reverse st :
  _tensor_product self (Instance other) reverse st =
  __init__ (if reverse
            then Py.kron (probabilities other) (probabilities self)
            else Py.kron (probabilities self) (probabilities other)) None st.
Proof. reflexivity. Qed.

(** Block structure of the Kronecker product: with [b] of [m] rows, row
    [i * m + k] of [kron a b] is row [i] of [a] against row [k] of [b]; with
    [rb] of [m] entries, entry [j * m + l] of that row is the product of
    entry [j] of the first and entry [l] of the second.  The left factor
    indexes the blocks: its bits are the more significant ones. *)
Lemma nth_flat_map_const {A B : Type} (f : A -> list B) (m : nat) (l : list A)
      (i k : nat) (da : A) (db : B) :
  (forall x, length (f x) = m) -> i < length l -> k < m ->
  nth (i * m + k) (flat_map f l) db = nth k (f (nth i l da)) db.
Proof.
  intros Hf. revert i. induction l as [|x l IH]; intros i Hi Hk; simpl in Hi; [lia|].
  cbn [flat_map]. destruct i as [|i].
  - simpl. apply app_nth1. rewrite Hf. exact Hk.
  - rewrite app_nth2 by (rewrite Hf; simpl; lia).
    rewrite Hf. replace (S i * m + k - m) with (i * m + k) by (simpl; lia).
    cbn [nth]. apply IH; [lia|exact Hk].
Qed.

Lemma kron_row_entry ra rb j l :
  j < length ra -> l < length rb ->
  nth (j * length rb + l) (Py.kron_row ra rb) 0%float
  = PrimFloat.mul (nth j ra 0%float) (nth l rb 0%float).
Proof.
  intros Hj Hl. unfold Py.kron_row.
  rewrite (nth_flat_map_const _ (length rb) ra j l 0%float)
    by (try (intros x; apply length_map); assumption).
  rewrite (nth_indep _ 0%float (PrimFloat.mul (nth j ra 0%float) 0%float))
    by (rewrite length_map; exact Hl).
  apply (map_nth (fun y => PrimFloat.mul (nth j ra 0%float) y)).
Qed.

Lemma kron_entry a b i k :
  i < length a -> k < length b ->
  nth (i * length b + k) (Py.kron a b) [] = Py.kron_row (nth i a []) (nth k b []).
Proof.
  intros Hi Hk. unfold Py.kron.
  rewrite (nth_flat_map_const _ (length b) a i k [])
    by (try (intros x; apply length_map); assumption).
  rewrite (nth_indep _ [] (Py.kron_row (nth i a []) []))
    by (rewrite length_map; exact Hk).
  apply (map_nth (fun rb => Py.kron_row (nth i a []) rb)).
Qed.

(** C6 (as amended): for valid instances A and B, [A.tensor(B)] hands
    the Kronecker product of A's matrix with B's to the constructor, and
    [A.expand(B)] that of B's with A's; [A.tensor(B)] and [B.expand(A)] are
    the same computation.  The product is square of side 2^(qA + qB).  If
    it passes the constructor's checks under the default tolerance, the
    result holds that product on qA + qB qubits; if not, the call raises the
    constructor's error, which can only be the normalisation or the sign
    error. *)
Theorem tensor_expand_spec (A B : ReadoutError) (st : ClassAttrs) :
  constructed A -> constructed B ->
  let K := Py.kron (probabilities A) (probabilities B) in
  let K' := Py.kron (probabilities B) (probabilities A) in
  let q := number_of_qubits A + number_of_qubits B in
  tensor A (Instance B) st = __init__ K None st /\
  expand A (Instance B) st = __init__ K' None st /\
  tensor A (Instance B) st = expand B (Instance A) st /\
  square_pow2 q K /\ square_pow2 q K' /\
  (_check_probabilities K ATOL_DEFAULT = Ok tt ->
     tensor A (Instance B) st
       = (Ok {| _probabilities := K; _number_of_qubits := q |}, st) /\
     expand B (Instance A) st
       = (Ok {| _probabilities := K; _number_of_qubits := q |}, st)) /\
  (_check_probabilities K' ATOL_DEFAULT = Ok tt ->
     expand A (Instance B) st
       = (Ok {| _probabilities := K'; _number_of_qubits := q |}, st)) /\
  (forall e, _check_probabilities K ATOL_DEFAULT = Raise e ->
     tensor A (Instance B) st = (Raise e, st) /\
     (e = NoiseError NotNormalized \/ e = NoiseError NegativeProbability)).
Proof.
  intros HA HB K K' q. apply constructed_shape in HA, HB.
  assert (HK : square_pow2 q K) by (apply kron_square; assumption).
  assert (HK' : square_pow2 q K').
  { unfold q. rewrite Nat.add_comm. apply kron_square; assumption. }
  refine (conj _ (conj _ (conj _ (conj HK (conj HK' (conj _ (conj _ _)))))));
    try reflexivity.
  - intros Hok. unfold tensor, expand. rewrite !tensor_product_run. fold K.
    rewrite (init_ok K None st Hok), (square_pow2_qubits _ _ HK). auto.
  - intros Hok. unfold expand. rewrite tensor_product_run. fold K'.
    rewrite (init_ok K' None st Hok), (square_pow2_qubits _ _ HK'). auto.
  - intros e He. split.
    + unfold tensor. rewrite tensor_product_run. fold K.
      apply init_raise. exact He.
    + apply (revalidation_errors _ _ _ HK He).
Qed.

Lemma tensor_expand_spec_witness :
  tensor noisy_1q (Instance identity_1q) class_defaults
    = (Ok {| _probabilities :=
               [[0.9; 0; 0.1; 0]; [0; 0.9; 0; 0.1];
                [0.2; 0; 0.8; 0]; [0; 0.2; 0; 0.8]]%float;
             _number_of_qubits := 2 |}, class_defaults) /\
  expand identity_1q (Instance noisy_1q) class_defaults
    = (Ok {| _probabilities :=
               [[0.9; 0; 0.1; 0]; [0; 0.9; 0; 0.1];
                [0.2; 0; 0.8; 0]; [0; 0.2; 0; 0.8]]%float;
             _number_of_qubits := 2 |}, class_defaults).
Proof.
  apply (proj1 (proj2 (proj2 (proj2 (proj2 (proj2
    (tensor_expand_spec noisy_1q identity_1q class_defaults
       constructed_noisy_1q constructed_identity_1q))))))).
  reflexivity.
Defined.

(** C6, as first stated, fails: the tensor product (and the expansion)
    of a valid one-qubit instance with itself yields no result, so no
    qubit count and no matrix: the product's first row sums to more than
    1 + 1e-8 and the constructor refuses it. *)
Lemma tensor_counterexample :
  outcome (__init__ [[1.000000009; 0]; [0; 1]]%float None) class_defaults
    = Ok near_identity_1q /\
  outcome (tensor near_identity_1q (Instance near_identity_1q)) class_defaults
    = Raise (NoiseError NotNormalized) /\
  outcome (expand near_identity_1q (Instance near_identity_1q)) class_defaults
    = Raise (NoiseError NotNormalized).
Proof. repeat split; reflexivity. Qed.

(** ** Identity detection *)

(** The identity has the shape of the matrix of every valid instance, so
    the subtraction in [ideal] is entry by entry. *)
Lemma eye_square q : square_pow2 q (Py.eye (2 ^ q)).
Proof.
  pose proof (Nat.pow_nonzero 2 q ltac:(lia)) as Hnz.
  unfold square_pow2, Py.eye, Py.ncols. split; [|split].
  - destruct (2 ^ q) as [|n] eqn:E; [lia|].
    simpl. rewrite length_map, length_seq. reflexivity.
  - rewrite length_map, length_seq. reflexivity.
  - apply Forall_map. apply Forall_forall. intros i _.
    rewrite length_map, length_seq. reflexivity.
Qed.

Definition all_zero (v : vector) : Prop := Forall (fun x => x = 0%float) v.
Definition zero_or_one (v : vector) : Prop :=
  Forall (fun x => x = 0%float \/ x = 1%float) v.

Lemma vsub_self v : zero_or_one v -> all_zero (Py.vsub v v).
Proof.
  induction 1 as [|x v [-> | ->] _ IH]; simpl; constructor; auto; reflexivity.
Qed.

Lemma msub_self a : Forall zero_or_one a -> all_zero (concat (Py.msub a a)).
Proof.
  induction 1 as [|v a Hv _ IH]; simpl; [constructor|].
  apply Forall_app. split; [apply vsub_self; exact Hv | exact IH].
Qed.

Lemma ddot_sparse {K : Blas} u v k :
  length u = length v -> k < length u ->
  (forall m, m < length u -> m <> k ->
             silent (nth m u 0%float) (nth m v 0%float)) ->
  PrimFloat.add 0 (PrimFloat.mul (nth k u 0%float) (nth k v 0%float))
  = PrimFloat.mul (nth k u 0%float) (nth k v 0%float) ->
  ddot u v = PrimFloat.mul (nth k u 0%float) (nth k v 0%float).
Proof.
  intros Hlen. apply accumulates_sparse. apply ddot_accumulates. exact Hlen.
Qed.

Lemma ddot_silent {K : Blas} u v :
  length u = length v ->
  (forall m, m < length u -> silent (nth m u 0%float) (nth m v 0%float)) ->
  ddot u v = 0%float.
Proof.
  intros Hlen. apply accumulates_silent. apply ddot_accumulates. exact Hlen.
Qed.

(** A test that holds of every value an inner product can take holds of
    the one the library returns. *)
Lemma ddot_candidates {K : Blas} (u : vector) (P : float -> bool) :
  forallb P (candidates (length u) u u) = true -> P (ddot u u) = true.
Proof.
  intros H. apply (proj1 (forallb_forall _ _) H).
  apply accumulates_candidates. apply ddot_accumulates. reflexivity.
Qed.

Lemma ddot_zero {K : Blas} v : all_zero v -> ddot v v = 0%float.
Proof.
  intros Hz. apply ddot_silent; [reflexivity|].
  intros m Hm.
  assert (E : nth m v 0%float = 0%float)
    by (apply (proj1 (Forall_forall _ _) Hz); apply nth_In; exact Hm).
  rewrite E. left. split; reflexivity.
Qed.

Lemma eye_zero_or_one n : Forall zero_or_one (Py.eye n).
Proof.
  unfold Py.eye. apply Forall_map. apply Forall_forall. intros i _.
  apply Forall_map. apply Forall_forall. intros j _.
  destruct (Nat.eqb i j); auto.
Qed.

(** Summing row [i] of the identity from column [s] on: the 1 is added
    once if [i] is among the columns, and zeros otherwise. *)
Lemma sum_eye_row i len : forall s acc,
  (acc = 0%float /\ s <= i < s + len) \/
  (acc = 1%float /\ (i < s \/ s + len <= i)) ->
  fold_left PrimFloat.add
    (map (fun j => if Nat.eqb i j then 1%float else 0%float) (seq s len)) acc
  = 1%float.
Proof.
  induction len as [|len IH]; intros s acc H; simpl.
  - destruct H as [(_ & H)|(-> & _)]; [lia|reflexivity].
  - apply IH. destruct H as [(-> & H)|(-> & H)].
    + destruct (Nat.eqb_spec i s) as [->|Hne].
      * right. split; [reflexivity|lia].
      * left. split; [reflexivity|lia].
    + destruct (Nat.eqb_spec i s) as [->|Hne]; [lia|].
      right. split; [reflexivity|lia].
Qed.

Lemma check_rows_eye n : forall rows,
  Forall (fun r => exists i, i < n /\
            r = map (fun j => if Nat.eqb i j then 1%float else 0%float) (seq 0 n)) rows ->
  check_rows n ATOL_DEFAULT rows = Ok tt.
Proof.
  induction 1 as [|r rows (i & Hi & ->) _ IH]; simpl; [reflexivity|].
  rewrite length_map, length_seq, Nat.eqb_refl. cbn [negb].
  unfold Py.sum. rewrite (sum_eye_row i n 0 0%float)
    by (left; split; [reflexivity|lia]).
  replace (PrimFloat.ltb ATOL_DEFAULT (PrimFloat.abs (PrimFloat.sub 1 1)))
    with false by reflexivity.
  replace (existsb _ _) with false; [exact IH|].
  symmetry. apply not_true_is_false. intros Hex.
  apply existsb_exists in Hex as (x & Hx & Hneg).
  apply in_map_iff in Hx as (j & <- & _).
  destruct (Nat.eqb i j); vm_compute in Hneg; discriminate.
Qed.

Lemma init_eye (q : nat) (st : ClassAttrs) :
  __init__ (Py.eye (2 ^ q)) None st =
  (Ok {| _probabilities := Py.eye (2 ^ q); _number_of_qubits := q |}, st).
Proof.
  rewrite init_ok.
  - rewrite (square_pow2_qubits q _ (eye_square q)). reflexivity.
  - cbn [threshold_of]. rewrite (check_square_rows q _ _ (eye_square q)).
    apply check_rows_eye. unfold Py.eye.
    apply Forall_map. apply Forall_forall. intros i Hi.
    apply in_seq in Hi. exists i. split; [lia|reflexivity].
Qed.

Lemma ideal_eye {K : Blas} (q : nat) (st : ClassAttrs) :
  ideal {| _probabilities := Py.eye (2 ^ q); _number_of_qubits := q |} st
  = (Ok true, st).
Proof.
  unfold ideal, probabilities, number_of_qubits.
  cbn [_probabilities _number_of_qubits].
  unfold Py.norm.
  rewrite (ddot_zero _ (msub_self _ (eye_zero_or_one (2 ^ q)))).
  reflexivity.
Qed.

(** X14: The identity on any number of qubits is accepted by the constructor
    and recognised by [ideal]. *)
Lemma identity_is_ideal {K : Blas} (q : nat) (st : ClassAttrs) :
  let iden := {| _probabilities := Py.eye (2 ^ q); _number_of_qubits := q |} in
  __init__ (Py.eye (2 ^ q)) None st = (Ok iden, st) /\
  ideal iden st = (Ok true, st).
Proof.
  intros iden. split.
  - apply init_eye.
  - apply ideal_eye.
Qed.

(** The identity but for one unit in the last place of one entry. *)
Definition almost_identity_1q : ReadoutError :=
  {| _probabilities := [[1; 0]; [0; 1.0000000000000002]]%float;
     _number_of_qubits := 1 |}.

Lemma ideal_run {K : Blas} (self : ReadoutError) (st : ClassAttrs) :
  ideal self st =
  (Ok (PrimFloat.eqb
         (Py.round12 (Py.norm (Py.msub (probabilities self)
                                       (Py.eye (2 ^ number_of_qubits self)))))
         0%float), st).
Proof. unfold ideal. destruct (PrimFloat.eqb _ _); reflexivity. Qed.

(** C7: [ideal] answers true exactly when the Frobenius norm of the
    matrix minus the identity of its size, rounded to 12 decimals, equals
    zero, whatever the order and the rounding in which the numeric library
    adds up the squares.  The matrix [[1,0],[0,1]] is accepted on one qubit
    and is ideal; [[0.9,0.1],[0.2,0.8]] is accepted and is not.  The
    rounding counts: a valid matrix one unit in the last place away from the
    identity is ideal.  So does the square root: a valid matrix 9e-9 away
    from the identity is not. *)
Theorem ideal_spec {K : Blas} :
  (forall (self : ReadoutError) (st : ClassAttrs),
      let iden := Py.eye (2 ^ number_of_qubits self) in
      let delta := Py.round12 (Py.norm (Py.msub (probabilities self) iden)) in
      exists b : bool,
        ideal self st = (Ok b, st) /\
        (b = true <-> PrimFloat.eqb delta 0 = true)) /\
  (forall st : ClassAttrs,
      __init__ [[1; 0]; [0; 1]]%float None st = (Ok identity_1q, st) /\
      number_of_qubits identity_1q = 1 /\
      ideal identity_1q st = (Ok true, st)) /\
  (forall st : ClassAttrs,
      __init__ [[0.9; 0.1]; [0.2; 0.8]]%float None st = (Ok noisy_1q, st) /\
      ideal noisy_1q st = (Ok false, st)) /\
  (forall st : ClassAttrs,
      __init__ [[1; 0]; [0; 1.0000000000000002]]%float None st
        = (Ok almost_identity_1q, st) /\
      probabilities almost_identity_1q <> Py.eye 2 /\
      ideal almost_identity_1q st = (Ok true, st)) /\
  (forall st : ClassAttrs,
      __init__ [[1.000000009; 0]; [0; 1]]%float None st
        = (Ok near_identity_1q, st) /\
      ideal near_identity_1q st = (Ok false, st)).
Proof.
  refine (conj _ (conj _ (conj _ (conj _ _)))).
  - intros self st iden delta. unfold ideal. fold iden. fold delta.
    destruct (PrimFloat.eqb delta 0).
    + exists true. split; [reflexivity|tauto].
    + exists false. split; [reflexivity|]. split; discriminate.
  - intros st. split; [reflexivity|]. split; [reflexivity|].
    exact (ideal_eye 1 st).
  - intros st. split; [reflexivity|].
    rewrite ideal_run. unfold Py.norm.
    set (flat := concat (Py.msub (probabilities noisy_1q)
                                 (Py.eye (2 ^ number_of_qubits noisy_1q)))).
    pose proof (ddot_candidates flat
                  (fun s => negb (PrimFloat.eqb
                                    (Py.round12 (PrimFloat.sqrt s)) 0%float))
                  ltac:(vm_compute; reflexivity)) as H.
    cbv beta in H. apply negb_true_iff in H. rewrite H. reflexivity.
  - intros st. split; [reflexivity|]. split; [discriminate|].
    rewrite ideal_run. unfold Py.norm.
    cbn [probabilities almost_identity_1q number_of_qubits _probabilities
         _number_of_qubits].
    change (concat (Py.msub [[1; 0]; [0; 1.0000000000000002]]%float
                            (Py.eye (2 ^ 1))))
      with [0; 0; 0; 2.2204460492503131e-16]%float.
    rewrite (ddot_sparse _ _ 3)
      by (try reflexivity; try (simpl; lia); silent_entries).
    reflexivity.
  - intros st. split; [reflexivity|].
    rewrite ideal_run. unfold Py.norm.
    cbn [probabilities near_identity_1q number_of_qubits _probabilities
         _number_of_qubits].
    change (concat (Py.msub [[1.000000009; 0]; [0; 1]]%float (Py.eye (2 ^ 1))))
      with [PrimFloat.sub 1.000000009 1; 0; 0; 0]%float.
    rewrite (ddot_sparse _ _ 0)
      by (try reflexivity; try (simpl; lia); silent_entries).
    reflexivity.
Qed.

(** * Further properties of the class *)

(** ** More on binary64 order and NaN *)

Lemma Prim2SF_nan (x : float) : Prim2SF x = SpecFloat.S754_nan -> x = nan.
Proof. intros H. apply Prim2SF_inj. rewrite H. reflexivity. Qed.

Lemma SFcompare_none (x y : SpecFloat.spec_float) :
  SpecFloat.SFcompare x y = None ->
  x = SpecFloat.S754_nan \/ y = SpecFloat.S754_nan.
Proof.
  destruct x as [sx|sx| |sx mx ex], y as [sy|sy| |sy my ey]; simpl; auto;
    try discriminate; try (destruct sx; discriminate); try (destruct sy; discriminate).
Qed.

(** When [y < x] is false, either [x <= y] or one of the two is a NaN. *)
Lemma ltb_false_cases (x y : float) :
  PrimFloat.ltb y x = false ->
  PrimFloat.leb x y = true \/ x = nan \/ y = nan.
Proof.
  rewrite leb_spec, ltb_spec. unfold SpecFloat.SFleb, SpecFloat.SFltb.
  rewrite (SFcompare_antisym (Prim2SF x) (Prim2SF y)).
  destruct (SpecFloat.SFcompare (Prim2SF x) (Prim2SF y)) as [[]|] eqn:E;
    simpl; auto; try discriminate.
  intros _. right.
  destruct (SFcompare_none _ _ E) as [H|H]; apply Prim2SF_nan in H; auto.
Qed.

Lemma add_nan_l (y : float) : PrimFloat.add nan y = nan.
Proof.
  apply Prim2SF_nan. rewrite add_spec. reflexivity.
Qed.

Lemma add_nan_r (x : float) : PrimFloat.add x nan = nan.
Proof.
  apply Prim2SF_nan. rewrite add_spec.
  change (Prim2SF nan) with SpecFloat.S754_nan.
  unfold SF64add, SpecFloat.SFadd. destruct (Prim2SF x); reflexivity.
Qed.

Lemma ltb_nan_r (x : float) : PrimFloat.ltb x nan = false.
Proof.
  rewrite ltb_spec. change (Prim2SF nan) with SpecFloat.S754_nan.
  unfold SpecFloat.SFltb, SpecFloat.SFcompare. destruct (Prim2SF x); reflexivity.
Qed.

Lemma ltb_nan_l (x : float) : PrimFloat.ltb nan x = false.
Proof.
  rewrite ltb_spec. reflexivity.
Qed.

(** ** What the validation accepts *)

(** A row passes the loop body's last two tests. *)
Definition row_ok (tol : float) (row : vector) : bool :=
  negb (deviates tol row) && negb (has_negative row).

Lemma check_rows_accepts N tol rows :
  Forall (fun r => length r = N) rows ->
  (check_rows N tol rows = Ok tt <-> forallb (row_ok tol) rows = true).
Proof.
  induction 1 as [|row rest Hlen _ IH]; simpl; [tauto|].
  rewrite Hlen, Nat.eqb_refl. cbn [negb].
  unfold row_ok at 1, deviates, has_negative.
  destruct (PrimFloat.ltb tol _); [split; discriminate|].
  destruct (existsb _ row); [split; discriminate|].
  exact IH.
Qed.

Lemma check_ok_rows p tol :
  _check_probabilities p tol = Ok tt -> forallb (row_ok tol) p = true.
Proof.
  intros H. pose proof (check_ok_shape p tol H) as Hsq.
  rewrite (check_square_rows _ tol p Hsq) in H.
  apply (check_rows_accepts _ tol p (proj2 (proj2 Hsq))). exact H.
Qed.

Lemma square_rows_ok q p tol :
  square_pow2 q p -> forallb (row_ok tol) p = true ->
  _check_probabilities p tol = Ok tt.
Proof.
  intros Hsq Hrows. rewrite (check_square_rows q tol p Hsq).
  apply (check_rows_accepts _ tol p (proj2 (proj2 Hsq))). exact Hrows.
Qed.

(** X1: The validation accepts a matrix exactly when it is a non-empty square
    of power-of-two side, each of whose rows sums to 1 within the threshold
    and has no negative entry. *)
Theorem check_probabilities_accepts (p : matrix) (tol : float) :
  _check_probabilities p tol = Ok tt <->
  exists q, square_pow2 q p /\ forallb (row_ok tol) p = true.
Proof.
  split.
  - intros H. exists (qubits_from_mat p). split.
    + apply (check_ok_shape p tol H).
    + apply (check_ok_rows p tol H).
  - intros (q & Hsq & Hrows). apply (square_rows_ok q p tol Hsq Hrows).
Qed.

Lemma check_probabilities_accepts_witness :
  exists q, square_pow2 q [[0.9; 0.1]; [0.2; 0.8]]%float /\
            forallb (row_ok ATOL_DEFAULT) [[0.9; 0.1]; [0.2; 0.8]]%float = true.
Proof.
  apply (proj1 (check_probabilities_accepts [[0.9; 0.1]; [0.2; 0.8]]%float ATOL_DEFAULT)).
  reflexivity.
Defined.

Lemma row_ok_nonnegative tol row :
  row_ok tol row = true -> Forall (fun x => PrimFloat.ltb x 0 = false) row.
Proof.
  unfold row_ok, has_negative. intros H. apply andb_prop in H as [_ H].
  apply negb_true_iff in H. apply Forall_forall. intros x Hx.
  destruct (PrimFloat.ltb x 0) eqn:E; [|reflexivity].
  assert (existsb (fun x => PrimFloat.ltb x 0) row = true)
    by (apply existsb_exists; eauto).
  congruence.
Qed.

(** X2: Every instance the constructor returns holds a non-empty square
    matrix of side 2 ^ number_of_qubits, the number of qubits is the
    logarithm of the number of rows, and no entry is negative. *)
Theorem constructed_invariant (self : ReadoutError) :
  constructed self ->
  probabilities self <> [] /\
  length (probabilities self) = 2 ^ number_of_qubits self /\
  Forall (fun r => length r = 2 ^ number_of_qubits self) (probabilities self) /\
  number_of_qubits self = Nat.log2 (length (probabilities self)) /\
  Forall (Forall (fun x => PrimFloat.ltb x 0 = false)) (probabilities self).
Proof.
  intros (p & a & st & H). apply init_inv in H as [Hc ->].
  unfold probabilities, number_of_qubits. cbn [_probabilities _number_of_qubits].
  pose proof (check_ok_shape p _ Hc) as Hsq.
  destruct (square_pow2_nonempty _ _ Hsq) as (r & rest & Hp).
  destruct Hsq as (Hcols & Hlen & Hrows).
  split; [rewrite Hp; discriminate|]. split; [exact Hlen|]. split; [exact Hrows|].
  split.
  - rewrite Hlen, Nat.log2_pow2 by lia. reflexivity.
  - pose proof (check_ok_rows p _ Hc) as Hok.
    apply Forall_forall. intros row Hrow.
    apply (row_ok_nonnegative (threshold_of a)).
    apply (proj1 (forallb_forall _ _) Hok row Hrow).
Qed.

Lemma constructed_invariant_witness :
  probabilities noisy_1q <> [] /\
  length (probabilities noisy_1q) = 2 ^ number_of_qubits noisy_1q /\
  Forall (fun r => length r = 2 ^ number_of_qubits noisy_1q) (probabilities noisy_1q) /\
  number_of_qubits noisy_1q = Nat.log2 (length (probabilities noisy_1q)) /\
  Forall (Forall (fun x => PrimFloat.ltb x 0 = false)) (probabilities noisy_1q).
Proof.
  apply (constructed_invariant noisy_1q).
  exists [[0.9; 0.1]; [0.2; 0.8]]%float, None, class_defaults. reflexivity.
Defined.

(** ** NaN and the row checks *)

Lemma fold_add_nan (row : vector) : forall acc,
  acc = nan \/ In nan row -> fold_left PrimFloat.add row acc = nan.
Proof.
  induction row as [|x row IH]; intros acc H; simpl.
  - destruct H as [H|[]]. exact H.
  - apply IH. destruct H as [->|[->|H]].
    + left. apply add_nan_l.
    + left. apply add_nan_r.
    + right. exact H.
Qed.

Lemma sum_nan (row : vector) : In nan row -> Py.sum row = nan.
Proof. intros H. apply fold_add_nan. right. exact H. Qed.

Lemma deviates_nan_row tol row : In nan row -> deviates tol row = false.
Proof.
  intros H. unfold deviates. rewrite (sum_nan row H).
  change (PrimFloat.abs (PrimFloat.sub nan 1)) with nan. apply ltb_nan_r.
Qed.

Lemma deviates_nan_tol row : deviates nan row = false.
Proof. unfold deviates. apply ltb_nan_l. Qed.

(** X5: A NaN switches the normalisation test off.  A square matrix of
    power-of-two side without negative entries is accepted whatever its
    other entries are, under every threshold, once each row holds a NaN;
    and it is accepted whatever its row sums are when the threshold itself
    is NaN. *)
Theorem nan_defeats_normalisation (q : nat) (p : matrix) :
  square_pow2 q p ->
  forallb (fun r => negb (has_negative r)) p = true ->
  (Forall (fun r => In nan r) p ->
     forall tol, _check_probabilities p tol = Ok tt) /\
  _check_probabilities p nan = Ok tt.
Proof.
  intros Hsq Hneg. split.
  - intros Hnan tol. rewrite (check_square_nonnegative q tol p Hsq Hneg).
    replace (existsb (deviates tol) p) with false; [reflexivity|].
    symmetry. apply not_true_is_false. intros Hex.
    apply existsb_exists in Hex as (row & Hrow & Hdev).
    rewrite (deviates_nan_row tol row) in Hdev; [discriminate|].
    apply (proj1 (Forall_forall _ _) Hnan row Hrow).
  - rewrite (check_square_nonnegative q nan p Hsq Hneg).
    replace (existsb (deviates nan) p) with false; [reflexivity|].
    symmetry. apply not_true_is_false. intros Hex.
    apply existsb_exists in Hex as (row & _ & Hdev).
    rewrite deviates_nan_tol in Hdev. discriminate.
Qed.

Lemma nan_defeats_normalisation_witness :
  _check_probabilities [[nan; 5]; [7; nan]]%float ATOL_DEFAULT = Ok tt /\
  _check_probabilities [[3; 4]; [0; 0]]%float nan = Ok tt.
Proof.
  split.
  - refine (proj1 (nan_defeats_normalisation 1 [[nan; 5]; [7; nan]]%float _ _)
                  _ ATOL_DEFAULT).
    + unfold square_pow2. repeat split; repeat constructor.
    + reflexivity.
    + apply Forall_cons; [left; reflexivity|].
      apply Forall_cons; [right; left; reflexivity|apply Forall_nil].
  - refine (proj2 (nan_defeats_normalisation 1 [[3; 4]; [0; 0]]%float _ _)).
    + unfold square_pow2. repeat split; repeat constructor.
    + reflexivity.
Defined.

(** ** The tolerance attributes *)

Lemma setter_guard (v : float) :
  PrimFloat.ltb v 0 = false /\ PrimFloat.ltb MAX_TOL v = false <->
  (PrimFloat.leb 0 v = true /\ PrimFloat.leb v MAX_TOL = true) \/ v = nan.
Proof.
  split.
  - intros [Hlo Hhi].
    destruct (ltb_false_cases 0 v Hlo) as [Hl|[Hl|Hl]];
      [|vm_compute in Hl; discriminate|auto].
    destruct (ltb_false_cases v MAX_TOL Hhi) as [Hh|[Hh|Hh]];
      [auto|auto|vm_compute in Hh; discriminate].
  - intros [[Hlo Hhi]| ->].
    + split; apply leb_not_ltb; assumption.
    + split; reflexivity.
Qed.

(** X7: The setters store exactly the values of [0, MAX_TOL] and NaN: a NaN
    is neither below 0 nor above [MAX_TOL] and passes both guards.  Every
    other value is refused with the tolerance error. *)
Theorem setters_accept (v : float) (st : ClassAttrs) :
  (outcome (atol_setter v) st = Ok tt <->
     (PrimFloat.leb 0 v = true /\ PrimFloat.leb v MAX_TOL = true) \/ v = nan) /\
  (outcome (rtol_setter v) st = Ok tt <->
     (PrimFloat.leb 0 v = true /\ PrimFloat.leb v MAX_TOL = true) \/ v = nan) /\
  (outcome (atol_setter v) st = Ok tt \/
   outcome (atol_setter v) st = Raise (NoiseError InvalidTolerance)) /\
  (outcome (rtol_setter v) st = Ok tt \/
   outcome (rtol_setter v) st = Raise (NoiseError InvalidTolerance)) /\
  attrs_after (atol_setter nan) st = {| ATOL := nan; RTOL := RTOL st |}.
Proof.
  pose proof (setter_guard v) as G.
  unfold outcome, atol_setter, rtol_setter.
  destruct (PrimFloat.ltb v 0) eqn:Elo; [|destruct (PrimFloat.ltb MAX_TOL v) eqn:Ehi].
  - repeat split; auto; try discriminate;
      intros H; apply G in H; destruct H; discriminate.
  - repeat split; auto; try discriminate;
      intros H; apply G in H; destruct H; discriminate.
  - repeat split; auto; intros _; apply G; auto.
Qed.

Lemma setters_accept_witness :
  outcome (atol_setter 1e-4) class_defaults = Ok tt /\
  outcome (rtol_setter nan) class_defaults = Ok tt.
Proof.
  split.
  - apply (proj1 (setters_accept 1e-4%float class_defaults)).
    left. split; reflexivity.
  - apply (proj1 (proj2 (setters_accept nan class_defaults))).
    right. reflexivity.
Defined.

(** X8: What was set is what is read back.  After a successful [atol]
    setter the [atol] property returns the new value and [rtol] what it
    returned before, and the other way round; a refused value leaves both
    attributes as they were; and the two setters commute. *)
Theorem setter_getter (v : float) (st : ClassAttrs) :
  (outcome (atol_setter v) st = Ok tt ->
     outcome (bind (atol_setter v) (fun _ => atol)) st = Ok v /\
     outcome (bind (atol_setter v) (fun _ => rtol)) st = outcome rtol st) /\
  (outcome (rtol_setter v) st = Ok tt ->
     outcome (bind (rtol_setter v) (fun _ => rtol)) st = Ok v /\
     outcome (bind (rtol_setter v) (fun _ => atol)) st = outcome atol st) /\
  (forall e, outcome (atol_setter v) st = Raise e ->
     attrs_after (atol_setter v) st = st) /\
  (forall e, outcome (rtol_setter v) st = Raise e ->
     attrs_after (rtol_setter v) st = st) /\
  (forall w, outcome (atol_setter v) st = Ok tt ->
             outcome (rtol_setter w) st = Ok tt ->
     attrs_after (bind (atol_setter v) (fun _ => rtol_setter w)) st
     = {| ATOL := v; RTOL := w |} /\
     attrs_after (bind (rtol_setter w) (fun _ => atol_setter v)) st
     = {| ATOL := v; RTOL := w |}).
Proof.
  unfold outcome, attrs_after, bind, atol_setter, rtol_setter, atol, rtol.
  refine (conj _ (conj _ (conj _ (conj _ _)))).
  - destruct (PrimFloat.ltb v 0); [discriminate|].
    destruct (PrimFloat.ltb MAX_TOL v); [discriminate|]. auto.
  - destruct (PrimFloat.ltb v 0); [discriminate|].
    destruct (PrimFloat.ltb MAX_TOL v); [discriminate|]. auto.
  - intros e. destruct (PrimFloat.ltb v 0); [reflexivity|].
    destruct (PrimFloat.ltb MAX_TOL v); [reflexivity|discriminate].
  - intros e. destruct (PrimFloat.ltb v 0); [reflexivity|].
    destruct (PrimFloat.ltb MAX_TOL v); [reflexivity|discriminate].
  - intros w.
    destruct (PrimFloat.ltb v 0); [discriminate|].
    destruct (PrimFloat.ltb MAX_TOL v); [discriminate|].
    destruct (PrimFloat.ltb w 0); [discriminate|].
    destruct (PrimFloat.ltb MAX_TOL w); [discriminate|]. auto.
Qed.

Lemma setter_getter_witness :
  (outcome (bind (atol_setter 5e-5) (fun _ => atol)) class_defaults = Ok 5e-5%float /\
   outcome (bind (atol_setter 5e-5) (fun _ => rtol)) class_defaults
   = outcome rtol class_defaults) /\
  attrs_after (atol_setter 1%float) class_defaults = class_defaults.
Proof.
  split.
  - apply (proj1 (setter_getter 5e-5%float class_defaults)). reflexivity.
  - apply (proj1 (proj2 (proj2 (setter_getter 1%float class_defaults)))
             (NoiseError InvalidTolerance)).
    reflexivity.
Defined.

(** ** Looser and tighter tolerances *)

Ltac cmp_cases :=
  repeat match goal with
  | H : context [(?a ?= ?b)%Z] |- _ =>
      destruct (Z.compare_spec a b); simpl in H; try discriminate H
  | H : context [Pos.compare_cont Eq ?a ?b] |- _ =>
      change (Pos.compare_cont Eq a b) with (Pos.compare a b) in H;
      destruct (Pos.compare_spec a b); simpl in H; try discriminate H
  | |- context [(?a ?= ?b)%Z] => destruct (Z.compare_spec a b); simpl
  | |- context [Pos.compare_cont Eq ?a ?b] =>
      change (Pos.compare_cont Eq a b) with (Pos.compare a b);
      destruct (Pos.compare_spec a b); simpl
  end.

Lemma SFcompare_le_lt_trans (a b c : SpecFloat.spec_float) :
  SpecFloat.SFcompare a b = Some Lt \/ SpecFloat.SFcompare a b = Some Eq ->
  SpecFloat.SFcompare b c = Some Lt -> SpecFloat.SFcompare a c = Some Lt.
Proof.
  destruct a as [[]|[]| |[] ma ea], b as [[]|[]| |[] mb eb],
           c as [[]|[]| |[] mc ec]; simpl;
    intros [H1|H1] H2; try discriminate; try reflexivity;
    cmp_cases; subst; try reflexivity; try lia.
Qed.

Lemma leb_ltb_trans (t t' x : float) :
  PrimFloat.leb t t' = true -> PrimFloat.ltb t' x = true -> PrimFloat.ltb t x = true.
Proof.
  rewrite leb_spec, !ltb_spec. unfold SpecFloat.SFleb, SpecFloat.SFltb.
  intros H1 H2.
  rewrite (SFcompare_le_lt_trans (Prim2SF t) (Prim2SF t') (Prim2SF x)).
  - reflexivity.
  - destruct (SpecFloat.SFcompare (Prim2SF t) (Prim2SF t')) as [[]|];
      auto; discriminate.
  - destruct (SpecFloat.SFcompare (Prim2SF t') (Prim2SF x)) as [[]|];
      auto; discriminate.
Qed.

Lemma row_ok_mono (t t' : float) (row : vector) :
  PrimFloat.leb t t' = true -> row_ok t row = true -> row_ok t' row = true.
Proof.
  intros Hle. unfold row_ok, deviates. intros H.
  apply andb_prop in H as [Hdev Hneg]. rewrite Hneg, andb_true_r.
  apply negb_true_iff in Hdev. apply negb_true_iff.
  destruct (PrimFloat.ltb t' _) eqn:E; [|reflexivity].
  rewrite (leb_ltb_trans t t' _ Hle E) in Hdev. discriminate.
Qed.

(** X6: Acceptance is monotone in the threshold: what passes the checks
    under a threshold passes them under every larger one.  So whatever the
    older variant's constructor (threshold 1e-10) accepts, the newer
    constructor accepts under its default threshold, into an instance with
    the same matrix and number of qubits. *)
Theorem tolerance_monotone :
  (forall (p : matrix) (t t' : float),
      PrimFloat.leb t t' = true ->
      _check_probabilities p t = Ok tt -> _check_probabilities p t' = Ok tt) /\
  (forall (p : matrix) (old : QiskitAer.ReadoutError) (st : ClassAttrs),
      QiskitAer.__init__ p = Ok old ->
      __init__ p None st =
      (Ok {| _probabilities := QiskitAer._probabilities old;
             _number_of_qubits := QiskitAer._number_of_qubits old |}, st)).
Proof.
  assert (Hmono : forall (p : matrix) (t t' : float),
             PrimFloat.leb t t' = true ->
             _check_probabilities p t = Ok tt -> _check_probabilities p t' = Ok tt).
  { intros p t t' Hle H.
    apply (square_rows_ok (qubits_from_mat p) p t' (check_ok_shape p t H)).
    pose proof (check_ok_rows p t H) as Hrows.
    apply forallb_forall. intros row Hrow.
    apply (row_ok_mono t t' row Hle).
    apply (proj1 (forallb_forall _ _) Hrows row Hrow). }
  split; [exact Hmono|].
  intros p old st. unfold QiskitAer.__init__.
  destruct (_check_probabilities p 1e-10) as [[]|e] eqn:E; simpl; [|discriminate].
  intros [= <-]. cbn [QiskitAer._probabilities QiskitAer._number_of_qubits].
  apply init_ok. cbn [threshold_of].
  apply (Hmono p 1e-10%float ATOL_DEFAULT); [reflexivity|exact E].
Qed.

Lemma tolerance_monotone_witness :
  _check_probabilities [[0.9; 0.1]; [0.2; 0.8]]%float 1e-4 = Ok tt /\
  __init__ [[0.9; 0.1]; [0.2; 0.8]]%float None class_defaults
  = (Ok noisy_1q, class_defaults).
Proof.
  split.
  - apply (proj1 tolerance_monotone [[0.9; 0.1]; [0.2; 0.8]]%float 0%float 1e-4%float);
      reflexivity.
  - apply (proj2 tolerance_monotone [[0.9; 0.1]; [0.2; 0.8]]%float
             {| QiskitAer._probabilities := [[0.9; 0.1]; [0.2; 0.8]]%float;
                QiskitAer._number_of_qubits := 1 |} class_defaults).
    reflexivity.
Defined.

(** ** Round trip through the dictionary *)

(** X9: Feeding the probabilities of [as_dict] back to the constructor, with
    the tolerance the instance was built with, returns the instance; so
    does the older variant, whose threshold is fixed.  With a different
    tolerance it need not: an instance built under [atol = 0.5] is refused
    when its dictionary is read back under the default. *)
Theorem as_dict_round_trip :
  (forall (p : matrix) (a : option float) (st : ClassAttrs) (self : ReadoutError),
      outcome (__init__ p a) st = Ok self ->
      outcome (bind (as_dict self) (fun d => __init__ (dict_probabilities d) a)) st
      = Ok self) /\
  (forall (p : matrix) (self : QiskitAer.ReadoutError),
      QiskitAer.__init__ p = Ok self ->
      QiskitAer.__init__ (dict_probabilities (QiskitAer.as_dict self)) = Ok self) /\
  (exists self : ReadoutError,
      outcome (__init__ [[0.75; 0.5]; [0.5; 0.75]]%float (Some 0.5%float)) class_defaults
      = Ok self /\
      outcome (bind (as_dict self) (fun d => __init__ (dict_probabilities d) None))
              class_defaults
      = Raise (NoiseError NotNormalized)).
Proof.
  split; [|split].
  - intros p a st self H. pose proof H as H'.
    apply init_inv in H' as [_ ->].
    unfold outcome, bind, as_dict, ret. cbn [dict_probabilities _probabilities].
    exact H.
  - intros p self. unfold QiskitAer.__init__.
    destruct (_check_probabilities p 1e-10) as [[]|e] eqn:E; simpl; [|discriminate].
    intros [= <-]. cbn [QiskitAer._probabilities]. rewrite E. reflexivity.
  - eexists. split; reflexivity.
Qed.

Lemma as_dict_round_trip_witness :
  outcome (bind (as_dict noisy_1q) (fun d => __init__ (dict_probabilities d) None))
          class_defaults
  = Ok noisy_1q.
Proof.
  apply (proj1 as_dict_round_trip [[0.9; 0.1]; [0.2; 0.8]]%float None class_defaults).
  reflexivity.
Defined.

(** ** Operands and orders *)

(** X10: Composing in front is composing behind with the roles swapped:
    [A.compose(B, front=True)] and [B.compose(A)] are one computation. *)
Theorem compose_front_swap {K : Blas} (A B : ReadoutError) (st : ClassAttrs) :
  compose A (Instance B) true st = compose B (Instance A) false st.
Proof.
  rewrite !compose_run.
  rewrite (Nat.eqb_sym (number_of_qubits A) (number_of_qubits B)).
  reflexivity.
Qed.

(** X11: An operand that is not an instance goes through the constructor
    under the default tolerance first.  If it is refused, [compose],
    [tensor] and [expand] raise the constructor's error, before any qubit
    count is compared; if it is accepted, they behave as on the instance
    built from it. *)
Theorem raw_operand {K : Blas} (self : ReadoutError) (p : matrix) (front : bool)
        (st : ClassAttrs) :
  (forall e, _check_probabilities p ATOL_DEFAULT = Raise e ->
     compose self (ArrayLike p) front st = (Raise e, st) /\
     tensor self (ArrayLike p) st = (Raise e, st) /\
     expand self (ArrayLike p) st = (Raise e, st)) /\
  (_check_probabilities p ATOL_DEFAULT = Ok tt ->
     let other := {| _probabilities := p;
                     _number_of_qubits := qubits_from_mat p |} in
     compose self (ArrayLike p) front st = compose self (Instance other) front st /\
     tensor self (ArrayLike p) st = tensor self (Instance other) st /\
     expand self (ArrayLike p) st = expand self (Instance other) st).
Proof.
  split.
  - intros e He.
    unfold tensor, expand, _tensor_product, compose, coerce, bind.
    rewrite (init_raise p None st e He). auto.
  - intros Hok other.
    unfold tensor, expand, _tensor_product, compose, coerce, bind.
    rewrite (init_ok p None st Hok). auto.
Qed.

Lemma raw_operand_witness :
  compose (K := fused_in_order) noisy_1q (ArrayLike [[0.5; 0.25]; [0; 1]]%float) false class_defaults
    = (Raise (NoiseError NotNormalized), class_defaults) /\
  tensor noisy_1q (ArrayLike [[1; 0]; [0; 1]]%float) class_defaults
    = tensor noisy_1q (Instance identity_1q) class_defaults.
Proof.
  split.
  - apply (proj1 (raw_operand (K := fused_in_order) noisy_1q [[0.5; 0.25]; [0; 1]]%float false class_defaults)).
    reflexivity.
  - apply (proj2 (raw_operand (K := fused_in_order) noisy_1q [[1; 0]; [0; 1]]%float false class_defaults)).
    reflexivity.
Defined.

(** ** What the operations return *)

(** An instance as the constructor leaves it under the default
    tolerance. *)
Definition validated (r : ReadoutError) : Prop :=
  _check_probabilities (probabilities r) ATOL_DEFAULT = Ok tt /\
  number_of_qubits r = qubits_from_mat (probabilities r).

Lemma init_validated p st r :
  outcome (__init__ p None) st = Ok r -> validated r.
Proof. intros H. apply init_inv in H as [Hc ->]. split; [exact Hc|reflexivity]. Qed.

Lemma validated_constructed r : validated r -> constructed r.
Proof.
  intros [Hc Hq]. exists (probabilities r), None, class_defaults.
  unfold outcome. rewrite (init_ok _ None _ Hc). cbn [fst].
  destruct r as [p q]. unfold number_of_qubits, probabilities in *.
  cbn [_probabilities _number_of_qubits] in *. rewrite Hq. reflexivity.
Qed.

Lemma compose_validated {K : Blas} self other front st r :
  outcome (compose self other front) st = Ok r -> validated r.
Proof.
  unfold outcome, compose, bind.
  destruct (stateless_coerce other) as [ro Hro]. rewrite Hro.
  destruct ro as [o|e]; [|discriminate].
  destruct (negb _); [discriminate|]. unfold lift.
  destruct (if front then _ else _) as [probs|e]; [|discriminate].
  apply init_validated.
Qed.

Lemma tensor_product_validated self other reverse st r :
  outcome (_tensor_product self other reverse) st = Ok r -> validated r.
Proof.
  unfold outcome, _tensor_product, bind.
  destruct (stateless_coerce other) as [ro Hro]. rewrite Hro.
  destruct ro as [o|e]; [|discriminate].
  apply init_validated.
Qed.

Lemma power_loop_validated {K : Blas} self k : forall acc st r,
  outcome (power_loop self (S k) acc) st = Ok r -> validated r.
Proof.
  intros acc st r. unfold outcome. rewrite power_loop_succ. unfold bind.
  destruct (power_loop self k acc st) as [[a|e] st']; [|discriminate].
  apply compose_validated.
Qed.

(** X12: Every instance that [compose], [tensor] or [expand] returns, and
    every instance [power] returns for an exponent of 2 or more, has passed
    the checks under the default tolerance, whichever tolerance the
    operands were built under, and counts its qubits from its own matrix. *)
Theorem results_validated {K : Blas} (self : ReadoutError) (other : operand) (front : bool)
        (n : Z) (st : ClassAttrs) (r : ReadoutError) :
  (outcome (compose self other front) st = Ok r -> validated r) /\
  (outcome (tensor self other) st = Ok r -> validated r) /\
  (outcome (expand self other) st = Ok r -> validated r) /\
  ((2 <= n)%Z -> outcome (power self (PyInt n)) st = Ok r -> validated r).
Proof.
  split; [apply compose_validated|].
  split; [apply tensor_product_validated|].
  split; [apply tensor_product_validated|].
  intros Hn. unfold power, copy.
  destruct (Z.ltb_spec n 1) as [Hlt|_]; [lia|].
  replace (Z.to_nat (n - 1)) with (S (Z.to_nat (n - 2))) by lia.
  change (bind (ret self) (fun acc => power_loop self (S (Z.to_nat (n - 2))) acc))
    with (power_loop self (S (Z.to_nat (n - 2))) self).
  apply power_loop_validated.
Qed.

Lemma results_validated_witness : validated identity_1q.
Proof.
  apply (proj2 (proj2 (proj2
    (results_validated (K := fused_in_order) identity_1q (Instance identity_1q) false 2 class_defaults
       identity_1q))));
    [lia|].
  vm_compute. reflexivity.
Defined.

(** ** Powers of a valid instance *)

Lemma compose_constructed {K : Blas} self other front st :
  constructed self -> constructed other ->
  number_of_qubits other = number_of_qubits self ->
  (exists r, compose self (Instance other) front st = (Ok r, st) /\
             validated r /\ number_of_qubits r = number_of_qubits self) \/
  (exists e, compose self (Instance other) front st = (Raise e, st) /\
             (e = NoiseError NotNormalized \/ e = NoiseError NegativeProbability)).
Proof.
  intros Hs Ho Heq. apply constructed_shape in Hs, Ho. rewrite Heq in Ho.
  set (probs := if front
                then dot_array (probabilities self) (probabilities other)
                else dot_array (probabilities other) (probabilities self)).
  assert (Hsq : square_pow2 (number_of_qubits self) probs)
    by (subst probs; destruct front; apply dot_square; assumption).
  assert (Hrun : compose self (Instance other) front st = __init__ probs None st).
  { rewrite compose_run, Heq, Nat.eqb_refl. cbn [negb].
    destruct Hs as (Hcs & Hls & _), Ho as (Hco & Hlo & _).
    subst probs. destruct front; rewrite dot_aligned by congruence; reflexivity. }
  rewrite Hrun.
  destruct (_check_probabilities probs ATOL_DEFAULT) as [[]|e] eqn:E.
  - left. eexists. split; [apply init_ok; exact E|]. split.
    + split; [exact E|reflexivity].
    + apply (square_pow2_qubits _ _ Hsq).
  - right. exists e. split; [apply init_raise; exact E|].
    apply (revalidation_errors _ _ _ Hsq E).
Qed.

Lemma power_loop_constructed {K : Blas} self st :
  constructed self ->
  forall k acc,
    constructed acc -> number_of_qubits acc = number_of_qubits self ->
    (exists r, power_loop self k acc st = (Ok r, st) /\
               constructed r /\ number_of_qubits r = number_of_qubits self) \/
    (exists e, power_loop self k acc st = (Raise e, st) /\
               (e = NoiseError NotNormalized \/ e = NoiseError NegativeProbability)).
Proof.
  intros Hs. induction k as [|k IH]; intros acc Hacc Hq.
  - left. exists acc. auto.
  - cbn [power_loop]. unfold bind.
    destruct (compose_constructed acc self false st Hacc Hs (eq_sym Hq))
      as [(r & Hr & Hv & Hqr)|(e & He & Hkind)].
    + rewrite Hr. apply IH; [apply validated_constructed; exact Hv|congruence].
    + rewrite He. right. exists e. auto.
Qed.

(** X13: For a valid instance and an exponent of 1 or more, [power] either
    returns a valid instance on the same number of qubits or raises the
    normalisation or the sign error of a re-validation; it raises nothing
    else, and leaves the class attributes alone. *)
Theorem power_preserves {K : Blas} (self : ReadoutError) (n : Z) (st : ClassAttrs) :
  constructed self -> (1 <= n)%Z ->
  (exists r, power self (PyInt n) st = (Ok r, st) /\
             constructed r /\ number_of_qubits r = number_of_qubits self) \/
  (exists e, power self (PyInt n) st = (Raise e, st) /\
             (e = NoiseError NotNormalized \/ e = NoiseError NegativeProbability)).
Proof.
  intros Hs Hn. unfold power, copy.
  destruct (Z.ltb_spec n 1) as [Hlt|_]; [lia|].
  change (bind (ret self) (fun acc => power_loop self (Z.to_nat (n - 1)) acc) st)
    with (power_loop self (Z.to_nat (n - 1)) self st).
  apply power_loop_constructed; auto.
Qed.

Lemma power_preserves_witness :
  (exists r, power (K := fused_in_order) noisy_1q (PyInt 3) class_defaults = (Ok r, class_defaults) /\
             constructed r /\ number_of_qubits r = number_of_qubits noisy_1q) \/
  (exists e, power (K := fused_in_order) noisy_1q (PyInt 3) class_defaults = (Raise e, class_defaults) /\
             (e = NoiseError NotNormalized \/ e = NoiseError NegativeProbability)).
Proof.
  apply (power_preserves (K := fused_in_order) noisy_1q 3 class_defaults).
  - exists [[0.9; 0.1]; [0.2; 0.8]]%float, None, class_defaults. reflexivity.
  - lia.
Defined.

(** ** Entries of products *)

(** X17: When [tensor] succeeds on valid instances A and B, with B of side
    M = 2 ^ qB, entry (i * M + k, j * M + l) of the result is entry (i, j) of
    A times entry (k, l) of B: the bits of A are the more significant. *)
Theorem tensor_entries (A B R : ReadoutError) (st : ClassAttrs) (i j k l : nat) :
  constructed A -> constructed B ->
  outcome (tensor A (Instance B)) st = Ok R ->
  i < 2 ^ number_of_qubits A -> j < 2 ^ number_of_qubits A ->
  k < 2 ^ number_of_qubits B -> l < 2 ^ number_of_qubits B ->
  let M := 2 ^ number_of_qubits B in
  nth (j * M + l) (nth (i * M + k) (probabilities R) []) 0%float
  = PrimFloat.mul (nth j (nth i (probabilities A) []) 0%float)
                  (nth l (nth k (probabilities B) []) 0%float).
Proof.
  intros HA HB HR Hi Hj Hk Hl M. subst M.
  apply constructed_shape in HA as (_ & HlA & HrA), HB as (_ & HlB & HrB).
  unfold tensor, outcome in HR. rewrite tensor_product_run in HR.
  apply init_inv in HR as [_ ->].
  unfold probabilities at 1. cbn [_probabilities].
  assert (Hrow_k : length (nth k (probabilities B) []) = 2 ^ number_of_qubits B).
  { apply (proj1 (Forall_forall _ _) HrB). apply nth_In. rewrite HlB. exact Hk. }
  assert (Hrow_i : length (nth i (probabilities A) []) = 2 ^ number_of_qubits A).
  { apply (proj1 (Forall_forall _ _) HrA). apply nth_In. rewrite HlA. exact Hi. }
  replace (nth (i * 2 ^ number_of_qubits B + k)
               (Py.kron (probabilities A) (probabilities B)) [])
    with (Py.kron_row (nth i (probabilities A) []) (nth k (probabilities B) [])).
  - rewrite <- Hrow_k at 1.
    apply kron_row_entry; [rewrite Hrow_i; exact Hj | rewrite Hrow_k; exact Hl].
  - symmetry. rewrite <- HlB at 1.
    apply kron_entry; [rewrite HlA; exact Hi | rewrite HlB; exact Hk].
Qed.

Lemma tensor_entries_witness :
  nth (1 * 2 ^ number_of_qubits identity_1q + 1)
      (nth (0 * 2 ^ number_of_qubits identity_1q + 1)
           [[0.9; 0; 0.1; 0]; [0; 0.9; 0; 0.1];
            [0.2; 0; 0.8; 0]; [0; 0.2; 0; 0.8]]%float []) 0%float
  = PrimFloat.mul (nth 1 (nth 0 (probabilities noisy_1q) []) 0%float)
                  (nth 1 (nth 1 (probabilities identity_1q) []) 0%float).
Proof.
  apply (tensor_entries noisy_1q identity_1q
           {| _probabilities := [[0.9; 0; 0.1; 0]; [0; 0.9; 0; 0.1];
                                 [0.2; 0; 0.8; 0]; [0; 0.2; 0; 0.8]]%float;
              _number_of_qubits := 2 |} class_defaults 0 1 1 1).
  - exists [[0.9; 0.1]; [0.2; 0.8]]%float, None, class_defaults. reflexivity.
  - exists [[1; 0]; [0; 1]]%float, None, class_defaults. reflexivity.
  - reflexivity.
  - simpl; lia.
  - simpl; lia.
  - simpl; lia.
  - simpl; lia.
Defined.

Lemma accumulates_plan u v s n :
  accumulates u v s -> length u = n -> n <> 0 ->
  exists pl, covers n pl /\
             (s = eval u v pl \/ s = PrimFloat.add 0 (eval u v pl)).
Proof.
  unfold accumulates. intros H Hn Hpos. rewrite Hn in H.
  destruct n as [|n]; [contradiction|exact H].
Qed.

(** X18: When [compose] succeeds on valid instances A and B of N = 2 ^ q
    rows, entry (i, j) of the result adds up the N products of row i of B
    with column j of A in the default order, and of row i of A with column
    j of B with [front]: each index is used once; the order of the
    additions, the fusions and the rounding are the numeric library's. *)
Theorem compose_entries {K : Blas} (A B R : ReadoutError) (front : bool)
        (st : ClassAttrs) (i j : nat) :
  constructed A -> constructed B ->
  outcome (compose A (Instance B) front) st = Ok R ->
  i < 2 ^ number_of_qubits A -> j < 2 ^ number_of_qubits A ->
  let row := nth i (probabilities (if front then A else B)) [] in
  let col := Py.column j (probabilities (if front then B else A)) in
  exists pl, covers (2 ^ number_of_qubits A) pl /\
             (nth j (nth i (probabilities R) []) 0%float = eval row col pl \/
              nth j (nth i (probabilities R) []) 0%float
              = PrimFloat.add 0 (eval row col pl)).
Proof.
  intros HA HB HR Hi Hj row col.
  apply constructed_shape in HA, HB.
  unfold outcome in HR. rewrite compose_run in HR.
  destruct (Nat.eqb_spec (number_of_qubits A) (number_of_qubits B)) as [Heq|];
    [|discriminate].
  cbn [negb] in HR. rewrite <- Heq in HB.
  pose proof (square_row_length _ _ i HA Hi) as HrA.
  pose proof (square_row_length _ _ i HB Hi) as HrB.
  destruct HA as (HcA & HlA & _), HB as (HcB & HlB & _).
  assert (HiA : i < length (probabilities A))
    by exact (eq_ind_r (fun n => i < n) Hi HlA).
  assert (HiB : i < length (probabilities B))
    by exact (eq_ind_r (fun n => i < n) Hi HlB).
  assert (HjA : j < Py.ncols (probabilities A))
    by exact (eq_ind_r (fun n => j < n) Hj HcA).
  assert (HjB : j < Py.ncols (probabilities B))
    by exact (eq_ind_r (fun n => j < n) Hj HcB).
  pose proof (Nat.pow_nonzero 2 (number_of_qubits A) ltac:(lia)) as Hpos.
  subst row col. destruct front.
  - rewrite dot_aligned in HR by exact (eq_trans HcA (eq_sym HlB)).
    apply init_inv in HR as [_ ->]. unfold probabilities at 3 5.
    cbn [_probabilities].
    apply (accumulates_plan _ _ _ _
             (dot_entry_accumulates _ _ i j HiA HjB (eq_trans HrA (eq_sym HlB)))
             HrA Hpos).
  - rewrite dot_aligned in HR by exact (eq_trans HcB (eq_sym HlA)).
    apply init_inv in HR as [_ ->]. unfold probabilities at 3 5.
    cbn [_probabilities].
    apply (accumulates_plan _ _ _ _
             (dot_entry_accumulates _ _ i j HiB HjA (eq_trans HrB (eq_sym HlA)))
             HrB Hpos).
Qed.

Lemma compose_entries_witness :
  exists pl, covers (2 ^ number_of_qubits noisy_1q) pl /\
    (nth 1 (nth 0 (probabilities noisy_1q) []) 0%float
     = eval (nth 0 (probabilities identity_1q) [])
            (Py.column 1 (probabilities noisy_1q)) pl \/
     nth 1 (nth 0 (probabilities noisy_1q) []) 0%float
     = PrimFloat.add 0 (eval (nth 0 (probabilities identity_1q) [])
                             (Py.column 1 (probabilities noisy_1q)) pl)).
Proof.
  apply (compose_entries (K := fused_in_order) noisy_1q identity_1q noisy_1q
           false class_defaults 0 1).
  - exists [[0.9; 0.1]; [0.2; 0.8]]%float, None, class_defaults. reflexivity.
  - exists [[1; 0]; [0; 1]]%float, None, class_defaults. reflexivity.
  - reflexivity.
  - simpl; lia.
  - simpl; lia.
Defined.

(** ** The identity under composition *)

Lemma eye_length n : length (Py.eye n) = n.
Proof. unfold Py.eye. rewrite length_map, length_seq. reflexivity. Qed.

Lemma eye_row n i : i < n ->
  nth i (Py.eye n) [] = map (fun j => if Nat.eqb i j then 1%float else 0%float) (seq 0 n).
Proof.
  intros Hi. unfold Py.eye.
  rewrite (nth_indep _ [] (map (fun j => if Nat.eqb 0 j then 1%float else 0%float) (seq 0 n)))
    by (rewrite length_map, length_seq; exact Hi).
  rewrite (map_nth (fun i0 => map (fun j => if Nat.eqb i0 j then 1%float else 0%float) (seq 0 n))).
  rewrite seq_nth by exact Hi. reflexivity.
Qed.

Lemma eye_entry n i j : i < n -> j < n ->
  nth j (nth i (Py.eye n) []) 0%float = if Nat.eqb i j then 1%float else 0%float.
Proof.
  intros Hi Hj. rewrite (eye_row n i Hi).
  rewrite (nth_indep _ 0%float (if Nat.eqb i 0 then 1%float else 0%float))
    by (rewrite length_map, length_seq; exact Hj).
  rewrite (map_nth (fun j0 => if Nat.eqb i j0 then 1%float else 0%float)).
  rewrite seq_nth by exact Hj. reflexivity.
Qed.

Lemma eye_row_length n i : i < n -> length (nth i (Py.eye n) []) = n.
Proof.
  intros Hi. rewrite (eye_row n i Hi), length_map, length_seq. reflexivity.
Qed.

Lemma eye_ncols n : n <> 0 -> Py.ncols (Py.eye n) = n.
Proof.
  intros Hn. destruct n as [|n]; [contradiction|].
  unfold Py.ncols, Py.eye. simpl. rewrite length_map, length_seq. reflexivity.
Qed.

Lemma column_eye_entry n j m : j < n -> m < n ->
  nth m (Py.column j (Py.eye n)) 0%float
  = if Nat.eqb m j then 1%float else 0%float.
Proof.
  intros Hj Hm. unfold Py.column.
  rewrite (nth_indep _ 0%float ((fun row : vector => nth j row 0%float) []))
    by (rewrite length_map, eye_length; exact Hm).
  rewrite (map_nth (fun row : vector => nth j row 0%float)).
  apply eye_entry; assumption.
Qed.

Lemma dot_row {K : Blas} a b i :
  i < length a ->
  nth i (dot_array a b) []
  = map (fun j => gemm i j (nth i a []) (Py.column j b)) (seq 0 (Py.ncols b)).
Proof.
  intros Hi. unfold dot_array.
  set (f := fun ir : nat * vector =>
              map (fun j0 => gemm (fst ir) j0 (snd ir) (Py.column j0 b))
                  (seq 0 (Py.ncols b))).
  rewrite (nth_indep _ [] (f (0, [])))
    by (rewrite length_map, length_combine, length_seq, Nat.min_id; exact Hi).
  rewrite (map_nth f), nth_enumerate by exact Hi. reflexivity.
Qed.

(** Row [i] of the identity against column [j] of the identity: one
    product is 1 when [i = j], and every other product is +0, so the entry
    is exact whatever the order and the fusions. *)
Lemma gemm_eye {K : Blas} n i j : i < n -> j < n ->
  gemm i j (nth i (Py.eye n) []) (Py.column j (Py.eye n))
  = if Nat.eqb i j then 1%float else 0%float.
Proof.
  intros Hi Hj.
  assert (Hlen : length (nth i (Py.eye n) []) = length (Py.column j (Py.eye n)))
    by (rewrite column_length, eye_length; apply eye_row_length; exact Hi).
  assert (Hu : forall m, m < n ->
                 nth m (nth i (Py.eye n) []) 0%float
                 = if Nat.eqb i m then 1%float else 0%float)
    by (intros m Hm; apply eye_entry; assumption).
  assert (Hv : forall m, m < n ->
                 nth m (Py.column j (Py.eye n)) 0%float
                 = if Nat.eqb m j then 1%float else 0%float)
    by (intros m Hm; apply column_eye_entry; assumption).
  destruct (Nat.eqb_spec i j) as [->|Hne].
  - rewrite (gemm_sparse j j _ _ j Hlen).
    + rewrite Hu, Hv, Nat.eqb_refl by exact Hj. reflexivity.
    + rewrite eye_row_length by exact Hj. exact Hj.
    + intros m Hm Hmj. rewrite eye_row_length in Hm by exact Hj.
      rewrite Hu, Hv by exact Hm.
      destruct (Nat.eqb_spec j m) as [->|_]; [contradiction|].
      left. split; [reflexivity|]. destruct (Nat.eqb m j); reflexivity.
    + rewrite Hu, Hv, Nat.eqb_refl by exact Hj. reflexivity.
  - apply (gemm_silent i j _ _ Hlen).
    intros m Hm. rewrite eye_row_length in Hm by exact Hi.
    rewrite Hu, Hv by exact Hm.
    destruct (Nat.eqb_spec i m) as [->|_].
    + destruct (Nat.eqb_spec m j) as [->|_]; [contradiction|].
      right. split; reflexivity.
    + left. split; [reflexivity|]. destruct (Nat.eqb m j); reflexivity.
Qed.

Lemma dot_eye {K : Blas} n : dot_array (Py.eye n) (Py.eye n) = Py.eye n.
Proof.
  destruct (Nat.eq_dec n 0) as [->|Hn]; [reflexivity|].
  assert (Hlen : length (dot_array (Py.eye n) (Py.eye n)) = n).
  { unfold dot_array.
    rewrite length_map, length_combine, length_seq, Nat.min_id.
    apply eye_length. }
  apply (nth_ext _ _ [] []); [rewrite eye_length; exact Hlen|].
  intros i Hi0. assert (Hi : i < n) by (rewrite <- Hlen; exact Hi0). clear Hi0.
  rewrite dot_row by (rewrite eye_length; exact Hi).
  rewrite (eye_ncols n Hn).
  transitivity (map (fun j => if Nat.eqb i j then 1%float else 0%float) (seq 0 n)).
  - apply map_ext_in. intros j Hj. apply in_seq in Hj. apply gemm_eye; lia.
  - symmetry. apply eye_row. exact Hi.
Qed.

(** X15: The identity on any number of qubits composed with itself, in either
    order, is the identity again, and so is every power of it with an
    exponent of 1 or more. *)
Theorem identity_fixed {K : Blas} (q : nat) (st : ClassAttrs) :
  let iden := {| _probabilities := Py.eye (2 ^ q); _number_of_qubits := q |} in
  (forall front, compose iden (Instance iden) front st = (Ok iden, st)) /\
  (forall n : Z, (1 <= n)%Z -> power iden (PyInt n) st = (Ok iden, st)).
Proof.
  intros iden.
  assert (Hc : forall front, compose iden (Instance iden) front st = (Ok iden, st)).
  { intros front. rewrite compose_run, Nat.eqb_refl. cbn [negb].
    unfold iden, probabilities. cbn [_probabilities].
    assert (Hd : Py.dot (Py.eye (2 ^ q)) (Py.eye (2 ^ q)) = Ok (Py.eye (2 ^ q))).
    { rewrite dot_aligned, dot_eye; [reflexivity|].
      destruct (eye_square q) as (H1 & H2 & _). congruence. }
    destruct front; rewrite Hd; apply init_eye. }
  split; [exact Hc|].
  intros n Hn. unfold power, copy.
  destruct (Z.ltb_spec n 1) as [Hlt|_]; [lia|].
  change (bind (ret iden) (fun acc => power_loop iden (Z.to_nat (n - 1)) acc) st)
    with (power_loop iden (Z.to_nat (n - 1)) iden st).
  induction (Z.to_nat (n - 1)) as [|k IH]; [reflexivity|].
  cbn [power_loop]. unfold bind. rewrite (Hc false). exact IH.
Qed.

Lemma identity_fixed_witness :
  power (K := fused_in_order) identity_1q (PyInt 5) class_defaults = (Ok identity_1q, class_defaults).
Proof.
  apply (proj2 (identity_fixed (K := fused_in_order) 1 class_defaults) 5%Z). lia.
Defined.

(** ** Which input raises what *)

Lemma check_rows_kinds N tol rows e :
  check_rows N tol rows = Raise e ->
  e = NoiseError InvalidDimension \/ e = NoiseError NotNormalized \/
  e = NoiseError NegativeProbability.
Proof.
  induction rows as [|row rest IH]; simpl; [discriminate|].
  destruct (negb _); [intros [= <-]; auto|].
  destruct (PrimFloat.ltb tol _); [intros [= <-]; auto|].
  destruct (existsb _ row); [intros [= <-]; auto|].
  exact IH.
Qed.

(** X4: The validation raises the empty-input error exactly on the empty
    list, and Python's [OverflowError] exactly when the first row is empty,
    whatever the other rows and the threshold are; on any other input it
    passes or raises one of the dimension, normalisation and sign errors. *)
Theorem check_probabilities_errors (p : matrix) (tol : float) :
  (_check_probabilities p tol = Raise (NoiseError EmptyInput) <-> p = []) /\
  (_check_probabilities p tol = Raise OverflowError <->
     exists rest, p = [] :: rest) /\
  (forall e, _check_probabilities p tol = Raise e ->
     e = NoiseError EmptyInput \/ e = OverflowError \/
     e = NoiseError InvalidDimension \/ e = NoiseError NotNormalized \/
     e = NoiseError NegativeProbability).
Proof.
  destruct p as [|[|x row0] rest].
  - split; [split; reflexivity || auto|]. split.
    + split; [discriminate|intros (r & H); discriminate].
    + intros e [= <-]. auto.
  - split; [split; discriminate|]. split.
    + split; [eauto|reflexivity].
    + intros e [= <-]. auto.
  - assert (H : forall e, _check_probabilities ((x :: row0) :: rest) tol = Raise e ->
                          e = NoiseError InvalidDimension \/
                          e = NoiseError NotNormalized \/
                          e = NoiseError NegativeProbability).
    { intros e. unfold _check_probabilities, Py.int_log2.
      replace (Nat.eqb (length (x :: row0)) 0) with false by reflexivity.
      cbn [rbind].
      destruct (negb _); [intros [= <-]; auto|].
      destruct (negb _); [intros [= <-]; auto|].
      apply check_rows_kinds. }
    split; [|split].
    + split; [|discriminate]. intros He. apply H in He as [He|[He|He]]; discriminate.
    + split; [|intros (r & Hr); discriminate].
      intros He. apply H in He as [He|[He|He]]; discriminate.
    + intros e He. apply H in He. tauto.
Qed.

Lemma check_probabilities_errors_witness :
  _check_probabilities [[]; [1; 2; 3]]%float ATOL_DEFAULT = Raise OverflowError /\
  _check_probabilities [] ATOL_DEFAULT = Raise (NoiseError EmptyInput).
Proof.
  split.
  - apply (proj1 (proj2 (check_probabilities_errors [[]; [1; 2; 3]]%float ATOL_DEFAULT))).
    exists [[1; 2; 3]]%float. reflexivity.
  - apply (proj1 (check_probabilities_errors [] ATOL_DEFAULT)). reflexivity.
Defined.

(** ** Tensor products of identities *)

Lemma block_index_eqb m i k j l :
  k < m -> l < m ->
  Nat.eqb (i * m + k) (j * m + l) = Nat.eqb i j && Nat.eqb k l.
Proof.
  intros Hk Hl.
  destruct (Nat.eqb_spec i j) as [->|Hij], (Nat.eqb_spec k l) as [->|Hkl]; cbn [andb].
  - apply Nat.eqb_refl.
  - apply Nat.eqb_neq. lia.
  - apply Nat.eqb_neq. nia.
  - apply Nat.eqb_neq. nia.
Qed.

Lemma kron_eye n m : Py.kron (Py.eye n) (Py.eye m) = Py.eye (n * m).
Proof.
  destruct (Nat.eq_dec m 0) as [->|Hm].
  { rewrite Nat.mul_0_r. unfold Py.kron. cbn [Py.eye seq map].
    induction (Py.eye n) as [|r l IH]; [reflexivity|exact IH]. }
  assert (Hlen : length (Py.kron (Py.eye n) (Py.eye m)) = n * m).
  { unfold Py.kron.
    rewrite (length_flat_map_const _ (length (Py.eye m)))
      by (intros x; apply length_map).
    rewrite !eye_length. reflexivity. }
  apply (nth_ext _ _ [] []); [rewrite eye_length; exact Hlen|].
  intros r Hr0. assert (Hr : r < n * m) by (rewrite <- Hlen; exact Hr0).
  clear Hr0.
  assert (Hi : r / m < n) by (apply Nat.Div0.div_lt_upper_bound; lia).
  assert (Hk : r mod m < m) by (apply Nat.mod_upper_bound; exact Hm).
  assert (Er : r = r / m * m + r mod m)
    by (rewrite (Nat.div_mod_eq r m) at 1; lia).
  rewrite Er at 1. rewrite <- (eye_length m) at 2.
  rewrite kron_entry by (rewrite eye_length; assumption).
  apply (nth_ext _ _ 0%float 0%float).
  { rewrite kron_row_length, !eye_row_length by assumption. reflexivity. }
  intros c Hc.
  rewrite kron_row_length, !eye_row_length in Hc by assumption.
  assert (Hj : c / m < n) by (apply Nat.Div0.div_lt_upper_bound; lia).
  assert (Hl : c mod m < m) by (apply Nat.mod_upper_bound; exact Hm).
  assert (Ec : c = c / m * m + c mod m)
    by (rewrite (Nat.div_mod_eq c m) at 1; lia).
  pose proof (kron_row_entry (nth (r / m) (Py.eye n) []) (nth (r mod m) (Py.eye m) [])
                             (c / m) (c mod m)) as E.
  rewrite !eye_row_length in E by assumption.
  rewrite <- Ec in E. rewrite (E Hj Hl).
  rewrite !eye_entry by assumption.
  pose proof (block_index_eqb m (r / m) (r mod m) (c / m) (c mod m) Hk Hl) as B.
  rewrite <- Er, <- Ec in B. rewrite B.
  destruct (Nat.eqb (r / m) (c / m)), (Nat.eqb (r mod m) (c mod m)); reflexivity.
Qed.

(** X16: The tensor product (and the expansion) of the identities on [qa] and
    on [qb] qubits is the identity on [qa + qb] qubits, which [ideal]
    recognises. *)
Theorem tensor_identities {K : Blas} (qa qb : nat) (st : ClassAttrs) :
  let iden q := {| _probabilities := Py.eye (2 ^ q); _number_of_qubits := q |} in
  tensor (iden qa) (Instance (iden qb)) st = (Ok (iden (qa + qb)), st) /\
  expand (iden qa) (Instance (iden qb)) st = (Ok (iden (qa + qb)), st) /\
  ideal (iden (qa + qb)) st = (Ok true, st).
Proof.
  intros iden. unfold tensor, expand. rewrite !tensor_product_run.
  unfold iden, probabilities. cbn [_probabilities].
  rewrite !kron_eye, <- !Nat.pow_add_r, (Nat.add_comm qb qa).
  split; [apply init_eye|]. split; [apply init_eye|apply ideal_eye].
Qed.

